(** * DT4PED dashboard: the data pipeline of [simulation_dashboard.py]

    The script reads [summary.csv], decodes two list-valued columns with
    [ast.literal_eval], derives per-layer columns and their ordinal
    encodings for the parallel-coordinates plot, computes KPI summaries and
    ranks the packages by a weighted sum of fractional ranks.

    Conventions of the embedding.
    - A pandas [DataFrame] is the list of its rows; a [Series] is the list of
      its values in row order.  A column added by the script is a list that
      runs parallel to the frame.
    - The metrics are binary64 numbers that the script only compares; they
      are the exact numbers ([Q]) of the frame, and a missing metric (NaN in
      a metric column) is outside the row type.  Weights, ranks and scores
      are computed: [Dashboard] has them as exact rationals, without
      rounding, and [Selector64] as binary64 numbers with the rounding of
      every operation.
    - [sort_values] is not stable in pandas.  [Pandas.sort_values] is the
      stable sort; [SortContract] and [Selector64] say which frames the
      call may return, and the facts that depend on the order of tied rows
      are stated for all of them.
    - Python exceptions are the [Raise] branch of [result].
    - The text the loader reads is a sequence of code points ([Unicode]).
      The views only compare and list material names; there a name is an
      opaque [string]. *)

From Stdlib Require Import List Bool Arith Lia ZArith NArith QArith Qfield Lqa.
From Stdlib Require Import Ascii String Permutation Sorted.
From Stdlib Require Import Floats.
Import ListNotations.

Set Implicit Arguments.
Set Warnings "-register-all".

(** ** Python values, exceptions and the error monad *)

Module Py.

Local Open Scope string_scope.

(** The exceptions the pipeline can raise.  [MalformedRecordError] stands for
    what [ast.literal_eval] raises on a cell it rejects ([ValueError] or
    [SyntaxError]). *)
Inductive exn : Type :=
| MalformedRecordError
| TypeError
| IndexError.

Inductive result (A : Type) : Type :=
| Ok (a : A)
| Raise (e : exn).

Arguments Ok {A} a.
Arguments Raise {A} e.

Definition bind {A B} (m : result A) (k : A -> result B) : result B :=
  match m with
  | Ok a => k a
  | Raise e => Raise e
  end.

Fixpoint mapM {A B} (f : A -> result B) (l : list A) : result (list B) :=
  match l with
  | [] => Ok []
  | a :: l' =>
      bind (f a) (fun b => bind (mapM f l') (fun bs => Ok (b :: bs)))
  end.

Definition raises {A} (m : result A) : Prop := exists e, m = Raise e.

End Py.

Unset Implicit Arguments.

(** ** Text: strings of code points, their display and [ast.literal_eval] *)

Module Unicode.

Local Open Scope N_scope.

(** A Python [str] is the sequence of its code points, each at most
    [0x10FFFF]. *)
Definition ustring : Type := list N.

Definition max_code_point : N := 1114111.

Definition code_point (c : N) : Prop := c <= max_code_point.

(** The surrogate code points [0xD800 .. 0xDFFF]. *)
Definition surrogate (c : N) : bool := (55296 <=? c) && (c <=? 57343).

(** The code point of an ASCII character, and the text of an ASCII string. *)
Definition chr (a : ascii) : N := N_of_ascii a.

Definition text (s : string) : ustring := map chr (list_ascii_of_string s).

Definition quote1 : N := 39.
Definition quote2 : N := 34.
Definition backslash : N := 92.

(** The literals of the modelled fragment: strings, lists and tuples, nested
    at will. *)
Inductive pyvalue : Type :=
| PyStr (s : ustring)
| PyList (items : list pyvalue)
| PyTuple (items : list pyvalue).

(** *** [repr] of a string and of a list of strings *)

Definition hex_digit (d : N) : N := if d <? 10 then 48 + d else 87 + d.

(** The last [n] hexadecimal digits of [c], most significant first. *)
Fixpoint hex (n : nat) (c : N) : ustring :=
  match n with
  | O => []
  | S n' => hex_digit ((c / 16 ^ N.of_nat n') mod 16) :: hex n' c
  end.

Definition escape (letter : ascii) (n : nat) (c : N) : ustring :=
  backslash :: chr letter :: hex n c.

Section Repr.

(** [str.isprintable] of one code point, a table of the Unicode database.
    [repr] consults it for the code points from 128 on. *)
Variable printable : N -> bool.

(** One character of a [repr] body between quotes [q], in the order of
    tests of CPython's [unicode_repr]. *)
Definition repr_char (q c : N) : ustring :=
  if (c =? q) || (c =? backslash) then [backslash; c]
  else if c =? 9 then [backslash; chr "t"]
  else if c =? 10 then [backslash; chr "n"]
  else if c =? 13 then [backslash; chr "r"]
  else if (c <? 32) || (c =? 127) then escape "x" 2 c
  else if c <? 127 then [c]
  else if printable c then [c]
  else if c <=? 255 then escape "x" 2 c
  else if c <=? 65535 then escape "u" 4 c
  else escape "U" 8 c.

Definition repr_body (q : N) (s : ustring) : ustring :=
  flat_map (repr_char q) s.

Definition contains (c : N) (s : ustring) : bool := existsb (N.eqb c) s.

(** Python picks double quotes only for a string that holds a single quote
    and no double quote. *)
Definition repr_quote (s : ustring) : N :=
  if contains quote1 s && negb (contains quote2 s) then quote2 else quote1.

Definition repr_str (s : ustring) : ustring :=
  let q := repr_quote s in
  q :: repr_body q s ++ [q].

(** The items of a list display, separated by a comma and [pad] blanks. *)
Fixpoint repr_items (pad : nat) (l : list ustring) : ustring :=
  match l with
  | [] => []
  | [s] => repr_str s
  | s :: l' => repr_str s ++ chr "," :: repeat (chr " ") pad ++ repr_items pad l'
  end.

(** Modelled from the spec: the textual form of a list of strings, which
    the round trip of the specification speaks of and which no code of the
    script writes.  [repr_list 1] is Python's [repr] (and [str]) of the
    list, the form a CSV writer stores; [repr_list 0] is the compact form
    without blanks. *)
Definition repr_list (pad : nat) (l : list ustring) : ustring :=
  chr "[" :: repr_items pad l ++ [chr "]"].

End Repr.

(** *** [ast.literal_eval] on the modelled fragment *)

Definition hex_value (c : N) : option N :=
  if (48 <=? c) && (c <=? 57) then Some (c - 48)
  else if (97 <=? c) && (c <=? 102) then Some (c - 87)
  else if (65 <=? c) && (c <=? 70) then Some (c - 55)
  else None.

Definition is_blank (c : N) : bool := (c =? 32) || (c =? 9).

Fixpoint skip_ws (s : ustring) : ustring :=
  match s with
  | c :: s' => if is_blank c then skip_ws s' else s
  | [] => s
  end.

(** Where the reader of a string literal stands: between escape sequences,
    after a backslash, or inside [\x], [\u] or [\U] with [S more] digits
    still to read and the value [acc] of the digits read. *)
Inductive mode : Type :=
| Plain
| Escape
| Hex (more : nat) (acc : N).

(** The single-character escapes. *)
Definition simple_escape (c : N) : option N :=
  if c =? backslash then Some backslash
  else if c =? quote1 then Some quote1
  else if c =? quote2 then Some quote2
  else if c =? chr "a" then Some 7
  else if c =? chr "b" then Some 8
  else if c =? chr "t" then Some 9
  else if c =? chr "n" then Some 10
  else if c =? chr "v" then Some 11
  else if c =? chr "f" then Some 12
  else if c =? chr "r" then Some 13
  else None.

Definition prepend (ch : N) (r : option (ustring * ustring))
  : option (ustring * ustring) :=
  match r with
  | Some (b, r') => Some (ch :: b, r')
  | None => None
  end.

(** The body of a string literal opened with quote [q]: the decoded text and
    the input left after the closing quote.  A raw line break, NUL or
    surrogate inside the quotes is an error, and so is an escape that
    denotes no code point. *)
Fixpoint string_body (q : N) (m : mode) (s : ustring)
  : option (ustring * ustring) :=
  match s with
  | [] => None
  | c :: rest =>
      match m with
      | Plain =>
          if c =? q then Some ([], rest)
          else if c =? backslash then string_body q Escape rest
          else if (c =? 10) || (c =? 13) || (c =? 0) || surrogate c
                  || (max_code_point <? c) then None
          else prepend c (string_body q Plain rest)
      | Escape =>
          match simple_escape c with
          | Some ch => prepend ch (string_body q Plain rest)
          | None =>
              if c =? chr "x" then string_body q (Hex 1 0) rest
              else if c =? chr "u" then string_body q (Hex 3 0) rest
              else if c =? chr "U" then string_body q (Hex 7 0) rest
              else None
          end
      | Hex more acc =>
          match hex_value c with
          | Some d =>
              let v := 16 * acc + d in
              match more with
              | O => if v <=? max_code_point
                     then prepend v (string_body q Plain rest)
                     else None
              | S more1 => string_body q (Hex more1 v) rest
              end
          | None => None
          end
      end
  end.

(** [parse_value] reads one literal; [parse_items close] reads the rest of a
    display up to its closing bracket and reports whether it met a comma
    (a parenthesised single item without comma is that item, not a tuple).
    Each call spends one unit of fuel. *)
Fixpoint parse_value (fuel : nat) (s : ustring) : option (pyvalue * ustring) :=
  match fuel with
  | O => None
  | S fuel' =>
      match skip_ws s with
      | [] => None
      | c :: rest =>
          if (c =? quote1) || (c =? quote2) then
            match string_body c Plain rest with
            | Some (b, r) => Some (PyStr b, r)
            | None => None
            end
          else if c =? chr "[" then
            match parse_items fuel' (chr "]") rest with
            | Some (vs, _, r) => Some (PyList vs, r)
            | None => None
            end
          else if c =? chr "(" then
            match parse_items fuel' (chr ")") rest with
            | Some ([v], false, r) => Some (v, r)
            | Some (vs, _, r) => Some (PyTuple vs, r)
            | None => None
            end
          else None
      end
  end
with parse_items (fuel : nat) (close : N) (s : ustring)
  : option (list pyvalue * bool * ustring) :=
  match fuel with
  | O => None
  | S fuel' =>
      match skip_ws s with
      | [] => None
      | c :: rest =>
          if c =? close then Some ([], false, rest)
          else
            match parse_value fuel' s with
            | None => None
            | Some (v, r1) =>
                match skip_ws r1 with
                | [] => None
                | d :: r2 =>
                    if d =? chr "," then
                      match parse_items fuel' close r2 with
                      | Some (vs, _, r3) => Some (v :: vs, true, r3)
                      | None => None
                      end
                    else if d =? close then Some ([v], false, r2)
                    else None
                end
            end
      end
  end.

(** [ast.literal_eval] on a cell of the fragment: [Some v] when the cell is
    a string, list or tuple literal of the fragment, [v] being the object
    the library builds.  [None] says that the cell is no such literal; the
    library rejects some of these cells and accepts others (numbers, names,
    sets, dictionaries, prefixed or adjacent strings, further escapes), so
    [None] tells nothing about the library. *)
Definition literal_eval (cell : ustring) : option pyvalue :=
  match parse_value (2 * List.length cell + 2) cell with
  | Some (v, rest) =>
      match skip_ws rest with
      | [] => Some v
      | _ :: _ => None
      end
  | None => None
  end.

End Unicode.

(** ** Loading, lines 113-119 *)

Module Loader.

Import Py Unicode.
Local Open Scope nat_scope.

Notation "x <- m ;; k" := (bind m (fun x => k))
  (at level 61, m at next level, right associativity).

(** A row of [summary.csv] as [pd.read_csv] returns it: the two list-valued
    columns are still text. *)
Record raw_row : Type := mkRaw {
  raw_package : ustring;
  raw_wall_materials : ustring;
  raw_roof_materials : ustring;
  raw_heating : Q;
  raw_gwp : Q;
  raw_cost : Q
}.

(** The list-valued cells of a file, in the order the loader evaluates
    them: the wall column, then the roof column. *)
Definition list_cells (csv : list raw_row) : list ustring :=
  map raw_wall_materials csv ++ map raw_roof_materials csv.

Section WithLibrary.

(** The two library calls of [load_data] are parameters: [literal_eval] is
    [ast.literal_eval], from a cell to the object it builds or the
    exception it raises, and [join] is [", ".join], which raises a
    [TypeError] unless its argument yields strings. *)
Variable pyobject : Type.
Variable literal_eval : ustring -> result pyobject.
Variable join : pyobject -> result ustring.

(** A row of the frame [load_data] returns. *)
Record loaded_row : Type := mkLoaded {
  package : ustring;
  wall_materials : pyobject;
  roof_materials : pyobject;
  wall_materials_str : ustring;
  roof_materials_str : ustring;
  heating_demand_kwh_per_m2 : Q;
  gwp_kgco2e : Q;
  cost_sek : Q
}.

Fixpoint assemble (csv : list raw_row) (walls roofs : list pyobject)
         (wall_strs roof_strs : list ustring) : list loaded_row :=
  match csv, walls, roofs, wall_strs, roof_strs with
  | r :: csv', w :: walls', f :: roofs', ws :: wall_strs', fs :: roof_strs' =>
      mkLoaded (raw_package r) w f ws fs
               (raw_heating r) (raw_gwp r) (raw_cost r)
        :: assemble csv' walls' roofs' wall_strs' roof_strs'
  | _, _, _, _, _ => []
  end.

(** [load_data].  Each [apply] runs over a whole column before the next
    one starts, and the first exception ends the load. *)
Definition load_data (csv : list raw_row) : result (list loaded_row) :=
  walls <- mapM literal_eval (map raw_wall_materials csv) ;;
  roofs <- mapM literal_eval (map raw_roof_materials csv) ;;
  wall_strs <- mapM join walls ;;
  roof_strs <- mapM join roofs ;;
  Ok (assemble csv walls roofs wall_strs roof_strs).

End WithLibrary.

Arguments mkLoaded {pyobject}.
Arguments package {pyobject}.
Arguments wall_materials {pyobject}.
Arguments roof_materials {pyobject}.
Arguments wall_materials_str {pyobject}.
Arguments roof_materials_str {pyobject}.
Arguments assemble {pyobject}.
Arguments load_data {pyobject}.

(** *** [", ".join] on the objects of the fragment *)

(** [sep.join(items)] *)
Fixpoint join_with (sep : ustring) (items : list ustring) : ustring :=
  match items with
  | [] => []
  | [s] => s
  | s :: items' => s ++ sep ++ join_with sep items'
  end.

Definition as_str (v : pyvalue) : result ustring :=
  match v with
  | PyStr s => Ok s
  | _ => Raise TypeError
  end.

(** The items [str.join] iterates over: the elements of a list or tuple, the
    characters of a string; an item that is not a [str] is a [TypeError]. *)
Definition str_items (v : pyvalue) : result (list ustring) :=
  match v with
  | PyStr s => Ok (map (fun c => [c]) s)
  | PyList l => mapM as_str l
  | PyTuple l => mapM as_str l
  end.

Definition join_value (v : pyvalue) : result ustring :=
  items <- str_items v ;; Ok (join_with (text ", ") items).

(** *** The library, as far as the fragment tells *)

(** An implementation of the two calls that does on the fragment what the
    fragment says: a cell that is a literal of the fragment evaluates to
    the object of its value, and joining such an object joins its items.
    On all other cells and objects the implementation is free. *)
Record library : Type := mkLibrary {
  object : Type;
  lib_literal_eval : ustring -> result object;
  lib_join : object -> result ustring;
  of_value : pyvalue -> object;
  literal_eval_fragment :
    forall cell v, Unicode.literal_eval cell = Some v ->
                   lib_literal_eval cell = Ok (of_value v);
  join_fragment : forall v, lib_join (of_value v) = join_value v
}.

Definition load (L : library) (csv : list raw_row)
  : result (list (loaded_row (object L))) :=
  load_data (lib_literal_eval L) (lib_join L) csv.

(** The least such implementation: it rejects every cell outside the
    fragment.  [ast.literal_eval] accepts more. *)
Definition fragment_eval (cell : ustring) : result pyvalue :=
  match Unicode.literal_eval cell with
  | Some v => Ok v
  | None => Raise MalformedRecordError
  end.

Definition fragment : library :=
  mkLibrary pyvalue fragment_eval join_value (fun v => v)
    (fun cell v (H : Unicode.literal_eval cell = Some v) =>
       @eq_ind_r _ (Some v)
                 (fun o => match o with
                           | Some w => Ok w
                           | None => Raise MalformedRecordError
                           end = Ok v)
                 eq_refl (Unicode.literal_eval cell) H)
    (fun v => eq_refl).

(** *** The specification's reading of a failed load *)

(** A cell of the fragment that evaluates to a string or to a tuple is no
    list literal; the specification has the load fail on it with a
    [MalformedRecordError]. *)
Definition load_rejects_non_lists (L : library) : Prop :=
  forall (csv : list raw_row) (cell : ustring) (v : pyvalue),
    In cell (list_cells csv) ->
    Unicode.literal_eval cell = Some v ->
    (forall items, v <> PyList items) ->
    load L csv = Raise MalformedRecordError.

End Loader.

Set Implicit Arguments.

(** ** The pandas operations the script calls *)

Module Pandas.

Import Py.
Local Open Scope Q_scope.

(** A float that pandas hands back from a reduction: a number, or NaN for
    the reduction of an empty column. *)
Inductive pyfloat : Type :=
| Finite (q : Q)
| NaN.

Section Sorting.

Variable A : Type.
Variable key : A -> Q.

(** [sort_values(by)], ascending.  pandas sorts with its default kind
    (quicksort), which is not stable: the rows come back in ascending key
    order, and the order among rows with equal keys is left to the
    implementation.  This function is the stable sort, which keeps such
    rows in frame order: it computes one of the frames the call may return,
    not always the one pandas returns.  [SortContract.sort_values_returns]
    describes all of them, and what depends on the order of tied rows is
    stated there for every such frame.  Facts that only speak of order and
    of the rows present ([sort_values_perm], [sort_values_sorted]) hold for
    each of them. *)
Fixpoint insert_by (a : A) (l : list A) : list A :=
  match l with
  | [] => [a]
  | b :: l' =>
      if Qle_bool (key a) (key b) then a :: b :: l' else b :: insert_by a l'
  end.

Definition sort_values (l : list A) : list A :=
  fold_right insert_by [] l.

(** [.iloc[0]]: the first row, [IndexError] on an empty frame. *)
Definition iloc0 (l : list A) : result A :=
  match l with
  | [] => Raise IndexError
  | a :: _ => Ok a
  end.

(** [.head(n)] *)
Definition head (n : nat) (l : list A) : list A := firstn n l.

End Sorting.

Definition sort_series (xs : list Q) : list Q := sort_values (fun q => q) xs.

(** [Series.min()], [Series.max()] and [Series.median()]: NaN on an empty
    column, no exception. *)
Definition Qmin_of (a b : Q) : Q := if Qle_bool a b then a else b.
Definition Qmax_of (a b : Q) : Q := if Qle_bool a b then b else a.

Definition series_min (xs : list Q) : pyfloat :=
  match xs with
  | [] => NaN
  | x :: xs' => Finite (fold_left Qmin_of xs' x)
  end.

Definition series_max (xs : list Q) : pyfloat :=
  match xs with
  | [] => NaN
  | x :: xs' => Finite (fold_left Qmax_of xs' x)
  end.

Definition series_median (xs : list Q) : pyfloat :=
  let s := sort_series xs in
  let n := List.length s in
  match n with
  | O => NaN
  | _ =>
      if Nat.even n
      then Finite ((nth (n / 2 - 1) s 0 + nth (n / 2) s 0) / 2)
      else Finite (nth (n / 2) s 0)
  end.

(** [Series.rank()] with its defaults (method average, ascending): a value
    gets the mean of the 1-based positions that the values equal to it
    occupy in the ascending order of the column. *)
Fixpoint positions_from (k : nat) (sorted : list Q) (x : Q) : list nat :=
  match sorted with
  | [] => []
  | y :: sorted' =>
      if Qeq_bool y x then k :: positions_from (S k) sorted' x
      else positions_from (S k) sorted' x
  end.

Definition tied_positions (xs : list Q) (x : Q) : list nat :=
  positions_from 1 (sort_series xs) x.

Definition Qnat (n : nat) : Q := inject_Z (Z.of_nat n).

Definition rank_of (xs : list Q) (x : Q) : Q :=
  let ps := tied_positions xs x in
  Qnat (list_sum ps) / Qnat (List.length ps).

Definition rank (xs : list Q) : list Q := map (rank_of xs) xs.

(** Arithmetic on columns with the same index. *)
Definition series_scale (xs : list Q) (w : Q) : list Q :=
  map (fun x => x * w) xs.

Fixpoint series_add (xs ys : list Q) : list Q :=
  match xs, ys with
  | x :: xs', y :: ys' => (x + y) :: series_add xs' ys'
  | _, _ => []
  end.

(** [Series.unique()]: the distinct values in the order they first appear.
    [seen] is the table of values met so far. *)
Fixpoint unique_from (seen col : list string) : list string :=
  match col with
  | [] => []
  | v :: col' =>
      if existsb (String.eqb v) seen then unique_from seen col'
      else v :: unique_from (v :: seen) col'
  end.

Definition unique (col : list string) : list string := unique_from [] col.

(** A series with an explicit index, [pd.Series(values, index=index)]. *)
Record Series : Type := mkSeries {
  index : list string;
  values : list nat
}.

(** Label lookup in an indexed series; [None] when the label is absent. *)
Fixpoint lookup (k : string) (entries : list (string * nat)) : option nat :=
  match entries with
  | [] => None
  | (k', v) :: entries' => if String.eqb k k' then Some v else lookup k entries'
  end.

Definition series_loc (s : Series) (k : string) : option nat :=
  lookup k (combine (index s) (values s)).

(** [col.map(s)] for an indexed series [s]: each value is replaced by the
    entry of [s] at that label; a value that is no label gives NaN, here
    [None]. *)
Definition series_map (col : list string) (s : Series) : list (option nat) :=
  map (series_loc s) col.

(** [Series.max()] of a column of ordinals that may hold NaN. *)
Definition ordinal_max (col : list (option nat)) : option nat :=
  fold_left
    (fun acc v =>
       match acc, v with
       | Some a, Some b => Some (Nat.max a b)
       | None, _ => v
       | _, None => acc
       end) col None.

End Pandas.

(** ** The dashboard *)

Module Dashboard.

Import Py Pandas.
Local Open Scope string_scope.

Notation "x <- m ;; k" := (bind m (fun x => k))
  (at level 61, m at next level, right associativity).

(** A row of the frame [load_data] returns.  The script keeps in
    [wall_materials] and [roof_materials] the object [ast.literal_eval]
    built; all it does with it afterwards is [len(x)], [x[i]] and
    [", ".join(x)], which see the object as the sequence of its [str]
    items, and that sequence is what the row holds. *)
Record package_row : Type := mkRow {
  package : string;
  wall_materials : list string;
  roof_materials : list string;
  wall_materials_str : string;
  roof_materials_str : string;
  heating_demand_kwh_per_m2 : Q;
  gwp_kgco2e : Q;
  cost_sek : Q
}.

Definition DataFrame : Type := list package_row.

(** *** KPIs, lines 124-131 and 167 *)

Inductive metric : Type := Heating | Gwp | Cost.

Definition metric_of (m : metric) : package_row -> Q :=
  match m with
  | Heating => heating_demand_kwh_per_m2
  | Gwp => gwp_kgco2e
  | Cost => cost_sek
  end.

(** [df.sort_values(m).iloc[0]] *)
Definition best_pkg (m : metric) (df : DataFrame) : result package_row :=
  iloc0 (sort_values (metric_of m) df).

Definition median (m : metric) (df : DataFrame) : pyfloat :=
  series_median (map (metric_of m) df).

Definition col_min (m : metric) (df : DataFrame) : pyfloat :=
  series_min (map (metric_of m) df).

Definition col_max (m : metric) (df : DataFrame) : pyfloat :=
  series_max (map (metric_of m) df).

Record kpis : Type := mkKpis {
  best_heat_pkg : package_row;
  best_gwp_pkg : package_row;
  best_cost_pkg : package_row;
  median_heat : pyfloat;
  median_gwp : pyfloat;
  median_cost : pyfloat
}.

(** The KPI block in script order: the three best packages first. *)
Definition kpi_block (df : DataFrame) : result kpis :=
  bh <- best_pkg Heating df ;;
  bg <- best_pkg Gwp df ;;
  bc <- best_pkg Cost df ;;
  Ok (mkKpis bh bg bc (median Heating df) (median Gwp df) (median Cost df)).

(** The numbers of the Key Insights block that come after the KPI block:
    the cost range of line 167. *)
Record summary : Type := mkSummary {
  summary_kpis : kpis;
  cost_lowest : pyfloat;
  cost_highest : pyfloat
}.

(** The summary statistics in script order: the KPI block of lines 124-131,
    then [df["cost_sek"].min()] and [.max()].  An exception in the KPI
    block ends the script before the cost range is computed. *)
Definition summary_run (df : DataFrame) : result summary :=
  k <- kpi_block df ;;
  Ok (mkSummary k (col_min Cost df) (col_max Cost df)).

(** *** Layer columns, lines 226-228 *)

Inductive typ : Type := roof | wall.
Inductive layer : Type := cladding | membrane | insulation.

(** [enumerate(["cladding", "membrane", "insulation"])] *)
Definition layer_index (l : layer) : nat :=
  match l with
  | cladding => 0
  | membrane => 1
  | insulation => 2
  end.

Definition materials_of (t : typ) : package_row -> list string :=
  match t with
  | roof => roof_materials
  | wall => wall_materials
  end.

(** [x[i]], an [IndexError] out of range. *)
Definition getitem (x : list string) (i : nat) : result string :=
  match nth_error x i with
  | Some v => Ok v
  | None => Raise IndexError
  end.

(** [lambda x: x[i] if len(x) > i else "None"] *)
Definition layer_value (i : nat) (x : list string) : result string :=
  if Nat.ltb i (List.length x) then getitem x i else Ok "None".

Definition material_col : Type := (typ * layer)%type.

Definition layer_column (c : material_col) (df : DataFrame)
  : result (list string) :=
  mapM (fun r => layer_value (layer_index (snd c)) (materials_of (fst c) r)) df.

(** *** Ordinal encoding and plot dimensions, lines 230-246 *)

Definition material_cols : list material_col :=
  list_prod [roof; wall] [cladding; membrane; insulation].

(** [pd.Series(range(len(unique)), index=unique)] *)
Definition tick_series (col : list string) : Series :=
  let u := unique col in
  mkSeries u (seq 0 (List.length u)).

(** [df[col + "_dummy"]] *)
Definition dummy_column (col : list string) : list (option nat) :=
  series_map col (tick_series col).

(** One categorical axis of the parallel-coordinates plot (its label, a
    display string, is left out).  The three metric axes appended at lines
    247-248 carry no ticks and are not modelled. *)
Record dimension : Type := mkDimension {
  range_max : option nat;
  tickvals : list nat;
  ticktext : list string;
  dim_values : list (option nat)
}.

Definition dimension_of (col : list string) : dimension :=
  mkDimension (ordinal_max (dummy_column col))
              (values (tick_series col))
              (index (tick_series col))
              (dummy_column col).

Definition dimensions (df : DataFrame) : result (list dimension) :=
  mapM (fun c => col <- layer_column c df ;; Ok (dimension_of col))
       material_cols.

(** *** Multi-criteria selector, lines 280-301 *)

Local Open Scope Q_scope.

Definition no_criteria_warning : string :=
  "Please assign some weight to at least one criterion."%string.

(** What the selector shows: the warning, or the normalised weights, the new
    [score] column and the table [top_custom]. *)
Inductive selection : Type :=
| Warning (msg : string)
| TopCustom (gw cw hw : Q) (score : list Q) (top_custom : list (package_row * Q)).

(** Lines 295-299 over the rationals: the weighted ranks without the
    rounding of binary64.  [Selector64.score_column] is the column as the
    script computes it, rounded after each operation. *)
Definition score_column (df : DataFrame) (gw cw hw : Q) : list Q :=
  series_add
    (series_add (series_scale (rank (map gwp_kgco2e df)) gw)
                (series_scale (rank (map cost_sek df)) cw))
    (series_scale (rank (map heating_demand_kwh_per_m2 df)) hw).

(** The frame with its [score] column, sorted by it. *)
Definition sorted_by_score (df : DataFrame) (score : list Q)
  : list (package_row * Q) :=
  sort_values snd (combine df score).

(** Lines 280-301 over the rationals, with the stable sort for line 301
    (see [Selector64.multi_criteria_selector] and [Selector64.top_custom]
    for the binary64 numbers and the frames the sort may return). *)
Definition multi_criteria_selector (df : DataFrame) (gw_raw cw_raw hw_raw : Q)
  : selection :=
  let total_weight := gw_raw + cw_raw + hw_raw in
  if Qeq_bool total_weight 0 then Warning no_criteria_warning
  else
    let gw := gw_raw / total_weight in
    let cw := cw_raw / total_weight in
    let hw := hw_raw / total_weight in
    let score := score_column df gw cw hw in
    TopCustom gw cw hw score (head 6 (sorted_by_score df score)).

(** The score of one row, as the three column expressions of lines 295-299
    compute it at that row. *)
Definition score_of (df : DataFrame) (gw cw hw : Q) (r : package_row) : Q :=
  rank_of (map gwp_kgco2e df) (gwp_kgco2e r) * gw
  + rank_of (map cost_sek df) (cost_sek r) * cw
  + rank_of (map heating_demand_kwh_per_m2 df) (heating_demand_kwh_per_m2 r) * hw.

End Dashboard.

(** ** The normalisation of lines 280-286 in binary64

    The same three divisions on IEEE 754 binary64 numbers with rounding to
    nearest, for the positions a slider with step 0.01 on [0, 1] can take. *)

Module Binary64.

Local Open Scope float_scope.

(** The binary64 number nearest to [k / 100]. *)
Definition slider_value (k : Z) : float :=
  PrimFloat.of_uint63 (Uint63.of_Z k) / 100.

Definition total_weight (gw_raw cw_raw hw_raw : float) : float :=
  gw_raw + cw_raw + hw_raw.

Definition normalize (gw_raw cw_raw hw_raw : float) : float * float * float :=
  let t := total_weight gw_raw cw_raw hw_raw in
  (gw_raw / t, cw_raw / t, hw_raw / t).

(** One unit in the last place of 1. *)
Definition ulp_one : float := PrimFloat.next_up 1 - 1.

Definition near_one (s : float) : bool :=
  PrimFloat.leb (PrimFloat.abs (s - 1)) ulp_one.

(** The three weights are non-negative and sum to 1 within one unit in the
    last place, in whichever order they are added. *)
Definition convex64 (w : float * float * float) : bool :=
  let '(gw, cw, hw) := w in
  PrimFloat.leb 0 gw && PrimFloat.leb 0 cw && PrimFloat.leb 0 hw
  && near_one (gw + cw + hw) && near_one (gw + (cw + hw))
  && near_one (gw + hw + cw).

Definition slider_positions : list Z := map Z.of_nat (seq 0 101).

(** Every slider triple either has total weight 0 or normalises to a
    convex combination. *)
Definition slider_grid_convex : bool :=
  forallb (fun i =>
    forallb (fun j =>
      forallb (fun k =>
        let a := slider_value i in
        let b := slider_value j in
        let c := slider_value k in
        if PrimFloat.eqb (total_weight a b c) 0
        then Z.eqb i 0 && Z.eqb j 0 && Z.eqb k 0
        else convex64 (normalize a b c))
      slider_positions) slider_positions) slider_positions.

End Binary64.

(** ** The other views of the page *)

Module Views.

Import Py Pandas Dashboard.
Local Open Scope string_scope.

(** *** Most common insulation, lines 159-161 *)

(** [df["wall_materials"].apply(lambda x: x[2] if len(x) > 2 else "None")] *)
Definition wall_insulations (df : DataFrame) : result (list string) :=
  mapM (fun r => layer_value 2 (wall_materials r)) df.

(** [Series.value_counts()]: one entry per distinct value with the number
    of its occurrences, sorted by descending count (entries with equal
    counts in the order [sort_values] leaves them). *)
Definition value_counts (col : list string) : list (string * nat) :=
  sort_values (fun p => - Qnat (snd p))
              (map (fun v => (v, count_occ string_dec col v)) (unique col)).

(** [Series.idxmax()]: the label of the first entry that holds the largest
    value; pandas raises a [ValueError] on an empty series. *)
Inductive idxmax_result : Type :=
| Label (v : string)
| EmptySequenceError.

Fixpoint first_max (best : string * nat) (entries : list (string * nat))
  : string * nat :=
  match entries with
  | [] => best
  | p :: entries' =>
      if Nat.ltb (snd best) (snd p) then first_max p entries'
      else first_max best entries'
  end.

Definition idxmax (entries : list (string * nat)) : idxmax_result :=
  match entries with
  | [] => EmptySequenceError
  | p :: entries' => Label (fst (first_max p entries'))
  end.

(** [Series.max()] of the counts; [None] is the NaN of an empty series. *)
Definition counts_max (entries : list (string * nat)) : option nat :=
  match entries with
  | [] => None
  | p :: entries' => Some (fold_left Nat.max (map snd entries') (snd p))
  end.

(** *** Top 10 tables, lines 265-267 *)

(** [df.sort_values(m).head(10)] *)
Definition top10 (m : metric) (df : DataFrame) : DataFrame :=
  head 10 (sort_values (metric_of m) df).

End Views.

(** ** Notions the specification speaks of *)

Module Spec.

Import Py Pandas Dashboard.
Local Open Scope Q_scope.

(** How many values of a column lie strictly below [x], and how many are
    equal to it. *)
Fixpoint count_lt (xs : list Q) (x : Q) : nat :=
  match xs with
  | [] => 0
  | y :: xs' => (if Qle_bool x y then 0 else 1) + count_lt xs' x
  end.

Fixpoint count_eq (xs : list Q) (x : Q) : nat :=
  match xs with
  | [] => 0
  | y :: xs' => (if Qeq_bool y x then 1 else 0) + count_eq xs' x
  end.

(** The fractional rank in the specification's words: 1-based, ascending,
    ties share the average of their positions.  The values equal to [x] take
    the positions [count_lt + 1 .. count_lt + count_eq] of the ascending
    order, whose average is [count_lt + (count_eq + 1) / 2]. *)
Definition fractional_rank (xs : list Q) (x : Q) : Q :=
  Qnat (count_lt xs x) + (Qnat (count_eq xs x) + 1) / 2.

(** The composite score of a row: the weighted sum of its three ranks. *)
Definition composite_score (df : DataFrame) (gw cw hw : Q) (r : package_row)
  : Q :=
  gw * fractional_rank (map gwp_kgco2e df) (gwp_kgco2e r)
  + cw * fractional_rank (map cost_sek df) (cost_sek r)
  + hw * fractional_rank (map heating_demand_kwh_per_m2 df)
                         (heating_demand_kwh_per_m2 r).

(** Ascending order of rows by a key. *)
Definition ascending {A} (key : A -> Q) : A -> A -> Prop :=
  fun a b => key a <= key b.

(** The position at which a value first occurs in a column (the length of
    the column when it does not occur). *)
Fixpoint first_index (v : string) (col : list string) : nat :=
  match col with
  | [] => 0
  | w :: col' => if String.eqb v w then 0 else S (first_index v col')
  end.

(** The three records of the end-to-end example; the example gives their
    metrics only. *)
Definition example_A : package_row :=
  mkRow "A" [] [] EmptyString EmptyString 50 10 100.
Definition example_B : package_row :=
  mkRow "B" [] [] EmptyString EmptyString 40 20 50.
Definition example_C : package_row :=
  mkRow "C" [] [] EmptyString EmptyString 45 15 75.

End Spec.

Unset Implicit Arguments.

(** ** What [sort_values] promises *)

Module SortContract.

Import Py Pandas Dashboard Spec.
Local Open Scope Q_scope.

(** [df.sort_values(by)] sorts with pandas' default kind, quicksort, which
    is not stable: the rows come back in ascending order of the key, and
    which of two rows with equal keys comes first is not fixed.
    [sort_values_returns key l out] says that [out] is a frame the call may
    return for [l]; [Pandas.sort_values] computes one of them, the one that
    keeps rows of equal key in frame order. *)
Definition sort_values_returns {A} (key : A -> Q) (l out : list A) : Prop :=
  Permutation out l /\ StronglySorted (ascending key) out.

(** [df.sort_values(m).iloc[0]], for a frame the sort may return. *)
Definition may_be_best (m : metric) (df : DataFrame) (r : package_row)
  : Prop :=
  exists out, sort_values_returns (metric_of m) df out /\ iloc0 out = Ok r.

(** [df.sort_values("score")] of line 301, for the score column the
    selector computes from the three weights. *)
Definition may_rank (df : DataFrame) (gw_raw cw_raw hw_raw : Q)
           (out : list (package_row * Q)) : Prop :=
  exists gw cw hw score top,
    multi_criteria_selector df gw_raw cw_raw hw_raw
    = TopCustom gw cw hw score top /\
    sort_values_returns snd (combine df score) out.

(** The specification's reading of the ranking by gwp alone: the ranked
    frame is the frame sorted by gwp_kgco2e with records of equal gwp kept
    in frame order (a stable sort). *)
Definition gwp_ranking_is_stable : Prop :=
  forall (df : DataFrame) (out : list (package_row * Q)),
    may_rank df 1 0 0 out -> map fst out = sort_values gwp_kgco2e df.

(** Four records, two of which share the lowest gwp. *)
Definition tied_A : package_row :=
  mkRow "A" [] [] EmptyString EmptyString 50 20 100.
Definition tied_B : package_row :=
  mkRow "B" [] [] EmptyString EmptyString 40 30 50.
Definition tied_C : package_row :=
  mkRow "C" [] [] EmptyString EmptyString 45 10 75.
Definition tied_D : package_row :=
  mkRow "D" [] [] EmptyString EmptyString 60 10 80.

End SortContract.

(** ** The selector of lines 280-301 in binary64

    Weights, ranks and scores are binary64 numbers in the script, rounded
    to nearest after each operation.  The metrics are only compared; they
    stay the exact numbers of the frame. *)

Module Selector64.

Import Py Pandas Dashboard Spec Binary64.
Local Open Scope float_scope.

(** The binary64 number nearest to a count. *)
Definition of_nat (n : nat) : float :=
  PrimFloat.of_uint63 (Uint63.of_Z (Z.of_nat n)).

(** [Series.rank()]: pandas adds up the 1-based positions of the values
    tied with [x] in the ascending order, as an integer, and divides by
    their number in binary64. *)
Definition rank_of (xs : list Q) (x : Q) : float :=
  let ps := tied_positions xs x in
  of_nat (list_sum ps) / of_nat (List.length ps).

Definition rank (xs : list Q) : list float := map (rank_of xs) xs.

Definition series_scale (xs : list float) (w : float) : list float :=
  map (fun x => x * w) xs.

Fixpoint series_add (xs ys : list float) : list float :=
  match xs, ys with
  | x :: xs', y :: ys' => (x + y) :: series_add xs' ys'
  | _, _ => []
  end.

(** Lines 295-299. *)
Definition score_column (df : DataFrame) (gw cw hw : float) : list float :=
  series_add
    (series_add (series_scale (rank (map gwp_kgco2e df)) gw)
                (series_scale (rank (map cost_sek df)) cw))
    (series_scale (rank (map heating_demand_kwh_per_m2 df)) hw).

(** What the selector computes: the warning, or the normalised weights and
    the [score] column. *)
Inductive selection : Type :=
| Warning (msg : string)
| Scored (gw cw hw : float) (score : list float).

Definition multi_criteria_selector (df : DataFrame)
           (gw_raw cw_raw hw_raw : float) : selection :=
  if PrimFloat.eqb (total_weight gw_raw cw_raw hw_raw) 0
  then Warning no_criteria_warning
  else
    let '(gw, cw, hw) := normalize gw_raw cw_raw hw_raw in
    Scored gw cw hw (score_column df gw cw hw).

(** The score of one row, as the three column expressions compute it at
    that row. *)
Definition score_of (df : DataFrame) (gw cw hw : float) (r : package_row)
  : float :=
  rank_of (map gwp_kgco2e df) (gwp_kgco2e r) * gw
  + rank_of (map cost_sek df) (cost_sek r) * cw
  + rank_of (map heating_demand_kwh_per_m2 df) (heating_demand_kwh_per_m2 r)
    * hw.

(** The order [sort_values] sorts a float column by: ascending, NaN last. *)
Definition le64 (x y : float) : bool :=
  PrimFloat.leb x y || PrimFloat.is_nan y.

Definition ascending64 {A} (key : A -> float) : A -> A -> Prop :=
  fun a b => le64 (key a) (key b) = true.

(** [sort_values(by)] on a float column, as far as the library fixes it
    (its default kind is not stable). *)
Definition sort_values_returns {A} (key : A -> float) (l out : list A)
  : Prop :=
  Permutation out l /\ StronglySorted (ascending64 key) out.

(** Line 301: [top_custom] is a table [df.sort_values("score").head(6)] may
    return. *)
Definition top_custom (df : DataFrame) (score : list float)
           (top : list (package_row * float)) : Prop :=
  exists out, sort_values_returns snd (combine df score) out /\
              top = head 6 out.

(** The rational number a finite binary64 number stands for. *)
Definition exact (x : float) : option Q :=
  match Prim2SF x with
  | S754_zero _ => Some 0%Q
  | S754_finite s m e =>
      Some ((if s then -1 else 1) * inject_Z (Zpos m) * Qpower 2 e)%Q
  | _ => None
  end.

(** The specification's reading of the score: every score is, as a number,
    the composite score of its record under the weights divided exactly by
    their sum. *)
Definition scores_are_exact : Prop :=
  forall (df : DataFrame) (gw_raw cw_raw hw_raw gw cw hw : float)
         (score : list float) (a b c : Q),
    multi_criteria_selector df gw_raw cw_raw hw_raw = Scored gw cw hw score ->
    exact gw_raw = Some a -> exact cw_raw = Some b -> exact hw_raw = Some c ->
    forall i r s,
      nth_error df i = Some r -> nth_error score i = Some s ->
      exists q,
        exact s = Some q /\
        (q == composite_score df (a / (a + b + c)) (b / (a + b + c))
                              (c / (a + b + c)) r)%Q.

End Selector64.

Set Implicit Arguments.

(** ** Facts about sorting *)

Module SortFacts.

Import Pandas Spec.
Local Open Scope Q_scope.

Section WithKey.

Variable A : Type.
Variable key : A -> Q.

Lemma insert_by_perm (a : A) (l : list A) :
  Permutation (insert_by key a l) (a :: l).
Proof.
  induction l as [|b l IH]; simpl.
  - apply Permutation_refl.
  - destruct (Qle_bool (key a) (key b)).
    + apply Permutation_refl.
    + apply perm_trans with (b :: a :: l).
      * now apply perm_skip.
      * apply perm_swap.
Qed.

Lemma sort_values_perm (l : list A) : Permutation (sort_values key l) l.
Proof.
  induction l as [|a l IH]; simpl.
  - apply perm_nil.
  - apply perm_trans with (a :: sort_values key l).
    + apply insert_by_perm.
    + now apply perm_skip.
Qed.

Lemma sort_values_length (l : list A) :
  List.length (sort_values key l) = List.length l.
Proof. apply Permutation_length, sort_values_perm. Qed.

Lemma sort_values_In (l : list A) (a : A) :
  In a (sort_values key l) <-> In a l.
Proof.
  split; apply Permutation_in.
  - apply sort_values_perm.
  - apply Permutation_sym, sort_values_perm.
Qed.

Lemma Qle_bool_false (x y : Q) : Qle_bool x y = false -> y < x.
Proof.
  intros H. apply Qnot_le_lt. intros Hle.
  apply Qle_bool_iff in Hle. congruence.
Qed.

Lemma insert_by_sorted (a : A) (l : list A) :
  StronglySorted (ascending key) l ->
  StronglySorted (ascending key) (insert_by key a l).
Proof.
  induction 1 as [|b l Hs IH Hb]; simpl.
  - repeat constructor.
  - destruct (Qle_bool (key a) (key b)) eqn:E.
    + apply Qle_bool_iff in E.
      constructor; [now constructor|].
      constructor; [exact E|].
      eapply Forall_impl; [|exact Hb].
      intros c Hc. unfold ascending in *. now apply Qle_trans with (key b).
    + apply Qle_bool_false in E.
      constructor; [exact IH|].
      eapply Permutation_Forall.
      * apply Permutation_sym, insert_by_perm.
      * constructor; [|exact Hb].
        unfold ascending. now apply Qlt_le_weak.
Qed.

Lemma sort_values_sorted (l : list A) :
  StronglySorted (ascending key) (sort_values key l).
Proof.
  induction l as [|a l IH]; simpl.
  - constructor.
  - now apply insert_by_sorted.
Qed.

(** Stability: the rows with a given key value keep their order. *)
Lemma insert_by_filter (v : Q) (a : A) (l : list A) :
  filter (fun r => Qeq_bool (key r) v) (insert_by key a l)
  = filter (fun r => Qeq_bool (key r) v) (a :: l).
Proof.
  induction l as [|b l IH]; simpl; [reflexivity|].
  destruct (Qle_bool (key a) (key b)) eqn:E; simpl; [reflexivity|].
  simpl in IH. rewrite IH.
  destruct (Qeq_bool (key a) v) eqn:Ea; [|reflexivity].
  destruct (Qeq_bool (key b) v) eqn:Eb; [|reflexivity].
  apply Qeq_bool_iff in Ea, Eb. apply Qle_bool_false in E.
  rewrite Ea, Eb in E. now apply Qlt_irrefl in E.
Qed.

Lemma sort_values_stable (v : Q) (l : list A) :
  filter (fun r => Qeq_bool (key r) v) (sort_values key l)
  = filter (fun r => Qeq_bool (key r) v) l.
Proof.
  induction l as [|a l IH]; simpl; [reflexivity|].
  rewrite insert_by_filter. simpl. now rewrite IH.
Qed.

(** The first row of a sorted non-empty frame has the least key. *)
Lemma iloc0_sort_values (l : list A) :
  l <> [] ->
  exists a, iloc0 (sort_values key l) = Py.Ok a /\ In a l /\
            forall b, In b l -> key a <= key b.
Proof.
  intros Hne.
  pose proof (sort_values_sorted l) as Hs.
  pose proof (sort_values_perm l) as Hp.
  destruct (sort_values key l) as [|a s] eqn:E.
  - apply Permutation_nil in Hp. contradiction.
  - exists a. split; [reflexivity|]. split.
    + apply (Permutation_in _ Hp). now left.
    + intros b Hb. apply Permutation_sym in Hp.
      apply (Permutation_in _ Hp) in Hb.
      inversion Hs as [|? ? _ Hall]; subst.
      destruct Hb as [<-|Hb]; [apply Qle_refl|].
      rewrite Forall_forall in Hall. now apply Hall.
Qed.

End WithKey.

(** Sorting by two keys that order the rows alike gives the same frame. *)
Lemma insert_by_map A B (f : A -> B) (k1 : A -> Q) (k2 : B -> Q)
      (a : A) (l : list A) :
  (forall b, In b l -> Qle_bool (k1 a) (k1 b) = Qle_bool (k2 (f a)) (k2 (f b))) ->
  map f (insert_by k1 a l) = insert_by k2 (f a) (map f l).
Proof.
  induction l as [|b l IH]; simpl; intros H; [reflexivity|].
  rewrite <- (H b) by now left.
  destruct (Qle_bool (k1 a) (k1 b)); simpl; [reflexivity|].
  f_equal. apply IH. intros c Hc. apply H. now right.
Qed.

Lemma sort_values_map A B (f : A -> B) (k1 : A -> Q) (k2 : B -> Q)
      (l : list A) :
  (forall a b, In a l -> In b l ->
               Qle_bool (k1 a) (k1 b) = Qle_bool (k2 (f a)) (k2 (f b))) ->
  map f (sort_values k1 l) = sort_values k2 (map f l).
Proof.
  induction l as [|a l IH]; simpl; intros H; [reflexivity|].
  rewrite (insert_by_map f k1 k2).
  - f_equal. apply IH. intros b c Hb Hc. apply H; now right.
  - intros b Hb. apply sort_values_In in Hb. apply H; [now left|now right].
Qed.

(** An ascending arrangement stays ascending under a map that respects the
    order of the keys. *)
Lemma StronglySorted_map A B (f : A -> B) (k1 : A -> Q) (k2 : B -> Q)
      (l : list A) :
  (forall a b, In a l -> In b l -> k1 a <= k1 b -> k2 (f a) <= k2 (f b)) ->
  StronglySorted (ascending k1) l ->
  StronglySorted (ascending k2) (map f l).
Proof.
  intros H Hs. induction Hs as [|a l Hs IH Ha]; simpl; constructor.
  - apply IH. intros b c Hb Hc. apply H; now right.
  - apply Forall_forall. intros y Hy.
    apply in_map_iff in Hy. destruct Hy as [b [<- Hb]].
    rewrite Forall_forall in Ha.
    apply H; [now left|now right|now apply Ha].
Qed.

(** When rows with equal keys are equal rows, a frame has one ascending
    arrangement only: every sorting algorithm returns it. *)
Lemma sorted_perm_unique A (key : A -> Q) (l1 : list A) :
  forall l2,
    (forall a b, In a l1 -> In b l1 -> key a == key b -> a = b) ->
    Permutation l1 l2 ->
    StronglySorted (ascending key) l1 ->
    StronglySorted (ascending key) l2 ->
    l1 = l2.
Proof.
  induction l1 as [|a l1 IH]; intros l2 Hinj Hp H1 H2.
  - apply Permutation_nil in Hp. now subst.
  - destruct l2 as [|b l2].
    + apply Permutation_sym, Permutation_nil in Hp. discriminate.
    + inversion H1 as [|? ? H1' Ha]; subst.
      inversion H2 as [|? ? H2' Hb]; subst.
      rewrite Forall_forall in Ha, Hb.
      assert (Hbin : In b (a :: l1)).
      { apply (Permutation_in _ (Permutation_sym Hp)). now left. }
      assert (Hain : In a (b :: l2)).
      { apply (Permutation_in _ Hp). now left. }
      assert (Hab : a = b).
      { apply Hinj; [now left|exact Hbin|].
        apply Qle_antisym.
        - destruct Hbin as [->|Hbin]; [apply Qle_refl|now apply Ha].
        - destruct Hain as [->|Hain]; [apply Qle_refl|now apply Hb]. }
      subst b. f_equal. apply IH.
      * intros x y Hx Hy. apply Hinj; now right.
      * now apply Permutation_cons_inv with a.
      * exact H1'.
      * exact H2'.
Qed.

End SortFacts.

Unset Implicit Arguments.

(** ** Facts about the average rank *)

Module RankFacts.

Import Pandas Spec SortFacts.
Local Open Scope Q_scope.

Lemma count_lt_perm (xs ys : list Q) (x : Q) :
  Permutation xs ys -> count_lt xs x = count_lt ys x.
Proof. induction 1; simpl; lia. Qed.

Lemma count_eq_perm (xs ys : list Q) (x : Q) :
  Permutation xs ys -> count_eq xs x = count_eq ys x.
Proof. induction 1; simpl; lia. Qed.

Lemma count_lt_compat (xs : list Q) (x y : Q) :
  x == y -> count_lt xs x = count_lt xs y.
Proof.
  intros E. induction xs as [|z xs IH]; simpl; [reflexivity|].
  rewrite IH. f_equal.
  destruct (Qle_bool x z) eqn:E1, (Qle_bool y z) eqn:E2; try reflexivity.
  - apply Qle_bool_iff in E1. rewrite E in E1.
    apply Qle_bool_iff in E1. congruence.
  - apply Qle_bool_iff in E2. rewrite <- E in E2.
    apply Qle_bool_iff in E2. congruence.
Qed.

Lemma count_eq_compat (xs : list Q) (x y : Q) :
  x == y -> count_eq xs x = count_eq xs y.
Proof.
  intros E. induction xs as [|z xs IH]; simpl; [reflexivity|].
  rewrite IH. f_equal.
  destruct (Qeq_bool z x) eqn:E1, (Qeq_bool z y) eqn:E2; try reflexivity.
  - apply Qeq_bool_iff in E1. rewrite E in E1.
    apply Qeq_bool_iff in E1. congruence.
  - apply Qeq_bool_iff in E2. rewrite <- E in E2.
    apply Qeq_bool_iff in E2. congruence.
Qed.

Lemma count_eq_In (xs : list Q) (x : Q) : In x xs -> (0 < count_eq xs x)%nat.
Proof.
  induction xs as [|y xs IH]; simpl; [contradiction|].
  intros [->|H].
  - rewrite (proj2 (Qeq_bool_iff x x) (Qeq_refl x)). lia.
  - apply IH in H. lia.
Qed.

(** Below [y] lie at least the values below [x] and those equal to [x],
    when [x < y]. *)
Lemma count_lt_step (xs : list Q) (x y : Q) :
  x < y -> (count_lt xs x + count_eq xs x <= count_lt xs y)%nat.
Proof.
  intros Hxy. induction xs as [|z xs IH]; simpl; [lia|].
  destruct (Qle_bool y z) eqn:Ey.
  - apply Qle_bool_iff in Ey.
    assert (Hxz : x < z) by now apply Qlt_le_trans with y.
    rewrite (proj2 (Qle_bool_iff x z) (Qlt_le_weak _ _ Hxz)).
    destruct (Qeq_bool z x) eqn:Ez; [|lia].
    apply Qeq_bool_iff in Ez. rewrite Ez in Hxz. now apply Qlt_irrefl in Hxz.
  - destruct (Qle_bool x z) eqn:Ex, (Qeq_bool z x) eqn:Ez; try lia.
    exfalso. apply Qeq_bool_iff in Ez.
    assert (Hle : x <= z) by (rewrite Ez; apply Qle_refl).
    apply Qle_bool_iff in Hle. congruence.
Qed.

Lemma positions_from_length (k : nat) (s : list Q) (x : Q) :
  List.length (positions_from k s x) = count_eq s x.
Proof.
  revert k. induction s as [|y s IH]; intros k; simpl; [reflexivity|].
  destruct (Qeq_bool y x); simpl; now rewrite IH.
Qed.

Lemma count_eq_above (s : list Q) (x : Q) :
  Forall (fun z => x < z) s -> count_eq s x = 0%nat.
Proof.
  induction 1 as [|z s Hz _ IH]; simpl; [reflexivity|].
  rewrite IH. destruct (Qeq_bool z x) eqn:E; [|reflexivity].
  apply Qeq_bool_iff in E. rewrite E in Hz. now apply Qlt_irrefl in Hz.
Qed.

Lemma count_lt_not_below (s : list Q) (x : Q) :
  Forall (fun z => x <= z) s -> count_lt s x = 0%nat.
Proof.
  induction 1 as [|z s Hz _ IH]; simpl; [reflexivity|].
  rewrite IH. apply Qle_bool_iff in Hz. now rewrite Hz.
Qed.

Lemma positions_from_nil (k : nat) (s : list Q) (x : Q) :
  count_eq s x = 0%nat -> positions_from k s x = [].
Proof.
  intros H. apply length_zero_iff_nil. now rewrite positions_from_length.
Qed.

(** In an ascending column the values equal to [x] sit in one block right
    after the values below [x]: the sum of their positions is the sum of
    [count_eq] consecutive numbers starting at [k + count_lt]. *)
Lemma positions_from_sum (s : list Q) (x : Q) :
  StronglySorted Qle s ->
  forall k,
    (2 * list_sum (positions_from k s x) + count_eq s x
     = count_eq s x * (2 * (k + count_lt s x) + count_eq s x))%nat.
Proof.
  induction 1 as [|y s Hs IH Hy]; intros k; simpl; [reflexivity|].
  destruct (Qeq_bool y x) eqn:Eyx.
  - apply Qeq_bool_iff in Eyx.
    assert (Hge : Forall (fun z => x <= z) s).
    { eapply Forall_impl; [|exact Hy]. intros z Hz. now rewrite <- Eyx. }
    assert (Hxy : Qle_bool x y = true).
    { apply Qle_bool_iff. rewrite Eyx. apply Qle_refl. }
    rewrite Hxy. simpl. specialize (IH (S k)).
    rewrite (count_lt_not_below s x Hge) in *. nia.
  - destruct (Qle_bool x y) eqn:Exy.
    + apply Qle_bool_iff in Exy.
      assert (Hlt : x < y).
      { apply Qle_lt_or_eq in Exy. destruct Exy as [H|H]; [exact H|].
        symmetry in H. apply Qeq_bool_iff in H. congruence. }
      assert (Habove : Forall (fun z => x < z) s).
      { eapply Forall_impl; [|exact Hy]. intros z Hz.
        now apply Qlt_le_trans with y. }
      rewrite (positions_from_nil (S k) s x (count_eq_above s x Habove)).
      rewrite (count_eq_above s x Habove). reflexivity.
    + specialize (IH (S k)). simpl. nia.
Qed.

Lemma Qnat_add (a b : nat) : Qnat (a + b) == Qnat a + Qnat b.
Proof. unfold Qnat. now rewrite Nat2Z.inj_add, inject_Z_plus. Qed.

Lemma Qnat_mul (a b : nat) : Qnat (a * b) == Qnat a * Qnat b.
Proof. unfold Qnat. now rewrite Nat2Z.inj_mul, inject_Z_mult. Qed.

Lemma Qnat_le (a b : nat) : (a <= b)%nat -> Qnat a <= Qnat b.
Proof. intros H. unfold Qnat. rewrite <- Zle_Qle. lia. Qed.

Lemma Qnat_pos (a : nat) : (0 < a)%nat -> 0 < Qnat a.
Proof.
  intros H. unfold Qnat. replace 0 with (inject_Z 0) by reflexivity.
  rewrite <- Zlt_Qlt. lia.
Qed.

Lemma sort_series_sorted (xs : list Q) : StronglySorted Qle (sort_series xs).
Proof. exact (sort_values_sorted (fun q => q) xs). Qed.

(** The rank pandas computes is the fractional rank of the specification,
    for every value that occurs in the column. *)
Lemma rank_of_fractional (xs : list Q) (x : Q) :
  (0 < count_eq xs x)%nat -> rank_of xs x == fractional_rank xs x.
Proof.
  intros Hpos. unfold rank_of, fractional_rank, tied_positions.
  pose proof (sort_values_perm (fun q => q) xs) as Hp.
  fold (sort_series xs) in Hp.
  pose proof (positions_from_sum _ x (sort_series_sorted xs) 1%nat) as Hsum.
  rewrite positions_from_length.
  rewrite (count_lt_perm _ _ x Hp), (count_eq_perm _ _ x Hp) in *.
  set (c := count_eq xs x) in *. set (l := count_lt xs x) in *.
  set (t := list_sum (positions_from 1 (sort_series xs) x)) in *.
  assert (HQ : 2 * Qnat t + Qnat c == Qnat c * (2 * (1 + Qnat l) + Qnat c)).
  { assert (HZ : (2 * Z.of_nat t + Z.of_nat c
                  = Z.of_nat c * (2 * (1 + Z.of_nat l) + Z.of_nat c))%Z) by nia.
    unfold Qnat. change 2 with (inject_Z 2). change 1 with (inject_Z 1).
    rewrite <- ?inject_Z_mult, <- ?inject_Z_plus, <- ?inject_Z_mult,
            <- ?inject_Z_plus, <- ?inject_Z_mult.
    now rewrite HZ. }
  pose proof (Qnat_pos _ Hpos) as Hc.
  assert (Hc0 : ~ Qnat c == 0) by (intros E; rewrite E in Hc; now apply Qlt_irrefl in Hc).
  assert (H2 : 2 * Qnat t == Qnat c * (2 * Qnat l + Qnat c + 1)).
  { setoid_replace (Qnat c * (2 * Qnat l + Qnat c + 1))
      with (Qnat c * (2 * (1 + Qnat l) + Qnat c) - Qnat c) by ring.
    rewrite <- HQ. ring. }
  setoid_replace (Qnat t) with ((2 * Qnat t) * (1 # 2)) by ring.
  rewrite H2. field. exact Hc0.
Qed.

Lemma fractional_rank_compat (xs : list Q) (x y : Q) :
  x == y -> fractional_rank xs x == fractional_rank xs y.
Proof.
  intros E. unfold fractional_rank.
  now rewrite (count_lt_compat xs x y E), (count_eq_compat xs x y E).
Qed.

Lemma fractional_rank_lt (xs : list Q) (x y : Q) :
  (0 < count_eq xs x)%nat -> x < y ->
  fractional_rank xs x < fractional_rank xs y.
Proof.
  intros Hpos Hxy. unfold fractional_rank.
  pose proof (Qnat_le _ _ (count_lt_step xs x y Hxy)) as H.
  rewrite Qnat_add in H.
  pose proof (Qnat_pos _ Hpos) as Hc.
  pose proof (Qnat_le _ _ (Nat.le_0_l (count_eq xs y))) as Hy.
  change (Qnat 0) with 0 in Hy.
  unfold Qdiv. change (/ 2) with (1 # 2). lra.
Qed.

(** Ranks order the values of a column exactly as the values themselves. *)
Lemma rank_of_le (xs : list Q) (x y : Q) :
  In x xs -> In y xs ->
  Qle_bool (rank_of xs x) (rank_of xs y) = Qle_bool x y.
Proof.
  intros Hx Hy. apply count_eq_In in Hx, Hy.
  apply eq_true_iff_eq. rewrite !Qle_bool_iff.
  rewrite (rank_of_fractional _ _ Hx), (rank_of_fractional _ _ Hy).
  split; intros H.
  - apply Qnot_lt_le. intros Hlt.
    apply (fractional_rank_lt xs _ _ Hy) in Hlt. lra.
  - apply Qle_lt_or_eq in H. destruct H as [H|H].
    + apply Qlt_le_weak. now apply fractional_rank_lt.
    + rewrite (fractional_rank_compat xs _ _ H). apply Qle_refl.
Qed.

(** A value that is the only least one has rank 1. *)
Lemma rank_of_unique_min (xs : list Q) (x : Q) :
  count_eq xs x = 1%nat -> count_lt xs x = 0%nat -> rank_of xs x == 1.
Proof.
  intros He Hl. rewrite rank_of_fractional by lia.
  unfold fractional_rank. rewrite He, Hl. reflexivity.
Qed.

End RankFacts.

(** ** The multi-criteria selector *)

Module SelectorFacts.

Import Py Pandas Dashboard Spec SortFacts RankFacts.
Local Open Scope Q_scope.

Lemma series_scale_map {A} (f : A -> Q) (w : Q) (l : list A) :
  series_scale (map f l) w = map (fun a => f a * w) l.
Proof. unfold series_scale. now rewrite map_map. Qed.

Lemma series_add_map {A} (f g : A -> Q) (l : list A) :
  series_add (map f l) (map g l) = map (fun a => f a + g a) l.
Proof. induction l as [|a l IH]; simpl; [reflexivity|]. now rewrite IH. Qed.

Lemma rank_map {A} (f : A -> Q) (l : list A) :
  rank (map f l) = map (fun a => rank_of (map f l) (f a)) l.
Proof. unfold rank. now rewrite map_map. Qed.

Lemma score_column_rows (df : DataFrame) (gw cw hw : Q) :
  score_column df gw cw hw = map (score_of df gw cw hw) df.
Proof.
  unfold score_column.
  rewrite !rank_map, !series_scale_map, !series_add_map. reflexivity.
Qed.

Lemma combine_map_r {A B} (f : A -> B) (l : list A) :
  combine l (map f l) = map (fun a => (a, f a)) l.
Proof. induction l as [|a l IH]; simpl; [reflexivity|]. now rewrite IH. Qed.

(** In a sorted column the values equal to [x] occupy one block of
    consecutive positions. *)
Lemma positions_from_block (s : list Q) (x : Q) :
  StronglySorted Qle s ->
  forall k, positions_from k s x = seq (k + count_lt s x) (count_eq s x).
Proof.
  induction 1 as [|y s Hs IH Hy]; intros k; simpl; [reflexivity|].
  destruct (Qeq_bool y x) eqn:Eyx.
  - apply Qeq_bool_iff in Eyx.
    assert (Hge : Forall (fun z => x <= z) s).
    { eapply Forall_impl; [|exact Hy]. intros z Hz. now rewrite <- Eyx. }
    assert (Hxy : Qle_bool x y = true).
    { apply Qle_bool_iff. rewrite Eyx. apply Qle_refl. }
    rewrite Hxy, IH, (count_lt_not_below s x Hge). simpl.
    rewrite !Nat.add_0_r. reflexivity.
  - destruct (Qle_bool x y) eqn:Exy.
    + apply Qle_bool_iff in Exy.
      assert (Hlt : x < y).
      { apply Qle_lt_or_eq in Exy. destruct Exy as [H|H]; [exact H|].
        symmetry in H. apply Qeq_bool_iff in H. congruence. }
      assert (Habove : Forall (fun z => x < z) s).
      { eapply Forall_impl; [|exact Hy]. intros z Hz.
        now apply Qlt_le_trans with y. }
      rewrite (positions_from_nil (S k) s x (count_eq_above s x Habove)).
      now rewrite (count_eq_above s x Habove).
    + rewrite IH. simpl. now rewrite Nat.add_succ_r.
Qed.

Lemma tied_positions_block (xs : list Q) (x : Q) :
  tied_positions xs x = seq (S (count_lt xs x)) (count_eq xs x).
Proof.
  unfold tied_positions.
  rewrite (positions_from_block _ x (sort_series_sorted xs)).
  pose proof (sort_values_perm (fun q => q) xs) as Hp.
  fold (sort_series xs) in Hp.
  now rewrite (count_lt_perm _ _ x Hp), (count_eq_perm _ _ x Hp).
Qed.

Lemma weights_total_nonzero (gw cw hw : Q) :
  ~ gw + cw + hw == 0 -> Qeq_bool (gw + cw + hw) 0 = false.
Proof.
  intros H. destruct (Qeq_bool (gw + cw + hw) 0) eqn:E; [|reflexivity].
  apply Qeq_bool_iff in E. contradiction.
Qed.

Lemma score_of_composite (df : DataFrame) (gw cw hw : Q) (r : package_row) :
  In r df -> score_of df gw cw hw r == composite_score df gw cw hw r.
Proof.
  intros Hr. unfold score_of, composite_score.
  rewrite !rank_of_fractional; [ring| | |];
    apply count_eq_In, in_map, Hr.
Qed.

Lemma selector_ranked (df : DataFrame) (gw_raw cw_raw hw_raw : Q) :
  ~ gw_raw + cw_raw + hw_raw == 0 ->
  let total := gw_raw + cw_raw + hw_raw in
  let score := score_column df (gw_raw / total) (cw_raw / total)
                            (hw_raw / total) in
  multi_criteria_selector df gw_raw cw_raw hw_raw
  = TopCustom (gw_raw / total) (cw_raw / total) (hw_raw / total) score
              (firstn 6 (sorted_by_score df score)).
Proof.
  intros H. unfold multi_criteria_selector.
  now rewrite (weights_total_nonzero _ _ _ H).
Qed.

(** C1. When the three weights sum to zero (in particular when all three
    are zero) the selector answers with its warning that no criterion was
    selected, for every frame; the branch that divides by the total and
    computes the score column is not taken, so the answer carries neither
    weights nor scores nor a table. *)
Theorem zero_weights_warn (df : DataFrame) (gw_raw cw_raw hw_raw : Q) :
  gw_raw + cw_raw + hw_raw == 0 ->
  multi_criteria_selector df gw_raw cw_raw hw_raw
  = Warning no_criteria_warning.
Proof.
  intros H. unfold multi_criteria_selector.
  apply Qeq_bool_iff in H. now rewrite H.
Qed.

Lemma zero_weights_warn_witness :
  multi_criteria_selector [example_A; example_B; example_C] 0 0 0
  = Warning no_criteria_warning.
Proof. apply zero_weights_warn. reflexivity. Defined.

(** In binary64, at each of the 101 x 101 x 101 positions of the three
    sliders: the total is 0 only when all three sliders are at 0, and
    otherwise the normalised weights are non-negative and sum to 1 within
    one unit in the last place. *)
Lemma slider_grid_convex_binary64 : Binary64.slider_grid_convex = true.
Proof. vm_compute. reflexivity. Qed.

Lemma sorted_by_score_rows (df : DataFrame) (gw cw hw : Q) :
  sorted_by_score df (score_column df gw cw hw)
  = sort_values snd (map (fun r => (r, score_of df gw cw hw r)) df).
Proof.
  unfold sorted_by_score. now rewrite score_column_rows, combine_map_r.
Qed.

Lemma gwp_only_score (df : DataFrame) (r : package_row) :
  score_of df (1 / (1 + 0 + 0)) (0 / (1 + 0 + 0)) (0 / (1 + 0 + 0)) r
  == rank_of (map gwp_kgco2e df) (gwp_kgco2e r).
Proof.
  unfold score_of.
  assert (E1 : 1 / (1 + 0 + 0) == 1) by reflexivity.
  assert (E0 : 0 / (1 + 0 + 0) == 0) by reflexivity.
  rewrite E1, E0. ring.
Qed.

Lemma gwp_only_score_le (df : DataFrame) (r r' : package_row) :
  In r df -> In r' df ->
  (score_of df (1 / (1 + 0 + 0)) (0 / (1 + 0 + 0)) (0 / (1 + 0 + 0)) r
   <= score_of df (1 / (1 + 0 + 0)) (0 / (1 + 0 + 0)) (0 / (1 + 0 + 0)) r'
   <-> gwp_kgco2e r <= gwp_kgco2e r').
Proof.
  intros Hr Hr'. rewrite !gwp_only_score, <- !Qle_bool_iff.
  rewrite rank_of_le; [reflexivity| |]; now apply in_map.
Qed.

End SelectorFacts.

(** ** Loading *)

Module LoadFacts.

Import Py Dashboard Spec.
Local Open Scope nat_scope.
Local Open Scope string_scope.

Lemma mapM_raise_inv {A B} (f : A -> result B) (l : list A) (e : exn) :
  mapM f l = Raise e -> exists a, In a l /\ f a = Raise e.
Proof.
  induction l as [|a l IH]; simpl; [discriminate|].
  destruct (f a) as [b|e'] eqn:Ea; simpl.
  - destruct (mapM f l) as [bs|e'']; simpl; [discriminate|].
    intros [= <-]. destruct (IH eq_refl) as [a' [Hin Ha']].
    exists a'. split; [now right|exact Ha'].
  - intros [= <-]. exists a. split; [now left|exact Ea].
Qed.

Lemma mapM_raises {A B} (f : A -> result B) (l : list A) (a : A) :
  In a l -> raises (f a) -> raises (mapM f l).
Proof.
  induction l as [|b l IH]; simpl; [contradiction|].
  intros Hin Hr. destruct (f b) as [y|e] eqn:Eb; simpl.
  - destruct Hin as [->|Hin].
    + destruct Hr as [e He]. congruence.
    + destruct (IH Hin Hr) as [e He]. rewrite He. now exists e.
  - now exists e.
Qed.

Lemma mapM_length {A B} (f : A -> result B) (l : list A) (bs : list B) :
  mapM f l = Ok bs -> List.length bs = List.length l.
Proof.
  revert bs. induction l as [|a l IH]; simpl; intros bs.
  - now intros [= <-].
  - destruct (f a) as [b|e]; simpl; [|discriminate].
    destruct (mapM f l) as [bs'|e]; simpl; [|discriminate].
    intros [= <-]. simpl. now rewrite (IH bs' eq_refl).
Qed.

Lemma mapM_ok {A B} (f : A -> result B) (g : A -> B) (l : list A) :
  (forall a, In a l -> f a = Ok (g a)) -> mapM f l = Ok (map g l).
Proof.
  induction l as [|a l IH]; simpl; intros H; [reflexivity|].
  rewrite (H a) by now left. simpl.
  rewrite IH by (intros b Hb; apply H; now right). reflexivity.
Qed.

(** [ast.literal_eval] raises nothing but its own error. *)
End LoadFacts.

(** ** Layer columns *)

Module LayerFacts.

Import Py Dashboard Spec LoadFacts.
Local Open Scope nat_scope.
Local Open Scope string_scope.

(** The lambda of lines 227-228 never raises: its value is the element at
    the index, or the sentinel past the end. *)
Lemma layer_value_nth (i : nat) (x : list string) :
  layer_value i x = Ok (nth i x "None").
Proof.
  unfold layer_value, getitem.
  destruct (Nat.ltb i (List.length x)) eqn:E.
  - apply Nat.ltb_lt in E.
    destruct (nth_error x i) as [v|] eqn:En.
    + now rewrite (nth_error_nth x i "None" En).
    + apply nth_error_None in En. lia.
  - apply Nat.ltb_ge in E. now rewrite nth_overflow.
Qed.

Lemma layer_column_map (c : material_col) (df : DataFrame) :
  layer_column c df
  = Ok (map (fun r => nth (layer_index (snd c)) (materials_of (fst c) r) "None")
            df).
Proof.
  unfold layer_column. apply mapM_ok. intros r _. apply layer_value_nth.
Qed.

End LayerFacts.

(** ** Summary statistics *)

Module SummaryFacts.

Import Py Pandas Dashboard Spec SortFacts.
Local Open Scope Q_scope.

Lemma fold_Qmin_le (xs : list Q) (x : Q) :
  fold_left Qmin_of xs x <= x /\
  forall y, In y xs -> fold_left Qmin_of xs x <= y.
Proof.
  revert x. induction xs as [|z xs IH]; intros x; simpl.
  - split; [apply Qle_refl|contradiction].
  - destruct (IH (Qmin_of x z)) as [H1 H2].
    assert (Hm : Qmin_of x z <= x /\ Qmin_of x z <= z).
    { unfold Qmin_of. destruct (Qle_bool x z) eqn:E.
      - apply Qle_bool_iff in E. split; [apply Qle_refl|exact E].
      - apply Qle_bool_false in E. split; [now apply Qlt_le_weak|apply Qle_refl]. }
    destruct Hm as [Hx Hz]. split.
    + now apply Qle_trans with (Qmin_of x z).
    + intros y [<-|Hy]; [now apply Qle_trans with (Qmin_of x z)|now apply H2].
Qed.

Lemma fold_Qmin_In (xs : list Q) (x : Q) : In (fold_left Qmin_of xs x) (x :: xs).
Proof.
  revert x. induction xs as [|z xs IH]; intros x; simpl; [now left|].
  destruct (IH (Qmin_of x z)) as [H|H].
  - unfold Qmin_of in H at 1. destruct (Qle_bool x z); [now left|right; now left].
  - right. now right.
Qed.

Lemma fold_Qmax_ge (xs : list Q) (x : Q) :
  x <= fold_left Qmax_of xs x /\
  forall y, In y xs -> y <= fold_left Qmax_of xs x.
Proof.
  revert x. induction xs as [|z xs IH]; intros x; simpl.
  - split; [apply Qle_refl|contradiction].
  - destruct (IH (Qmax_of x z)) as [H1 H2].
    assert (Hm : x <= Qmax_of x z /\ z <= Qmax_of x z).
    { unfold Qmax_of. destruct (Qle_bool x z) eqn:E.
      - apply Qle_bool_iff in E. split; [exact E|apply Qle_refl].
      - apply Qle_bool_false in E. split; [apply Qle_refl|now apply Qlt_le_weak]. }
    destruct Hm as [Hx Hz]. split.
    + now apply Qle_trans with (Qmax_of x z).
    + intros y [<-|Hy]; [now apply Qle_trans with (Qmax_of x z)|now apply H2].
Qed.

Lemma fold_Qmax_In (xs : list Q) (x : Q) : In (fold_left Qmax_of xs x) (x :: xs).
Proof.
  revert x. induction xs as [|z xs IH]; intros x; simpl; [now left|].
  destruct (IH (Qmax_of x z)) as [H|H].
  - unfold Qmax_of in H at 1. destruct (Qle_bool x z); [right; now left|now left].
  - right. now right.
Qed.

Lemma series_median_finite (xs : list Q) :
  xs <> [] -> exists q, series_median xs = Finite q.
Proof.
  intros Hne. unfold series_median.
  pose proof (sort_values_length (fun q => q) xs) as Hlen.
  fold (sort_series xs) in Hlen.
  destruct (List.length (sort_series xs)) as [|n] eqn:E.
  - destruct xs; [contradiction|discriminate].
  - destruct (Nat.even (S n)); eexists; reflexivity.
Qed.

End SummaryFacts.

(** ** Ordinal encoding of the layer columns *)

Module EncodingFacts.

Import Py Pandas Dashboard Spec LayerFacts.
Local Open Scope nat_scope.

Lemma existsb_eqb_In (v : string) (seen : list string) :
  existsb (String.eqb v) seen = true <-> In v seen.
Proof.
  rewrite existsb_exists. split.
  - intros [w [Hw E]]. apply String.eqb_eq in E. now subst.
  - intros H. exists v. split; [exact H|apply String.eqb_refl].
Qed.

Lemma unique_from_In (seen col : list string) (v : string) :
  In v (unique_from seen col) <-> In v col /\ ~ In v seen.
Proof.
  revert seen. induction col as [|w col IH]; intros seen; simpl.
  - tauto.
  - destruct (existsb (String.eqb w) seen) eqn:E.
    + apply existsb_eqb_In in E. rewrite IH. split.
      * intros [H1 H2]. tauto.
      * intros [[->|H1] H2]; [contradiction|tauto].
    + assert (Hw : ~ In w seen).
      { intros H. apply existsb_eqb_In in H. congruence. }
      simpl. rewrite IH. simpl. split.
      * intros [->|[H1 H2]]; [tauto|]. split; [tauto|]. tauto.
      * intros [[->|H1] H2]; [now left|].
        destruct (string_dec w v) as [->|Hne]; [now left|right]. tauto.
Qed.

Lemma unique_from_NoDup (seen col : list string) :
  NoDup (unique_from seen col).
Proof.
  revert seen. induction col as [|w col IH]; intros seen; simpl.
  - constructor.
  - destruct (existsb (String.eqb w) seen); [apply IH|].
    constructor; [|apply IH].
    rewrite unique_from_In. simpl. tauto.
Qed.

Lemma first_index_neq (v w : string) (col : list string) :
  v <> w -> first_index v (w :: col) = S (first_index v col).
Proof.
  intros H. simpl. apply String.eqb_neq in H. now rewrite H.
Qed.

(** The distinct values come in the order of their first occurrence. *)
Lemma unique_from_order (col : list string) :
  forall seen i j a b,
    nth_error (unique_from seen col) i = Some a ->
    nth_error (unique_from seen col) j = Some b ->
    i < j ->
    first_index a col < first_index b col.
Proof.
  induction col as [|w col IH]; intros seen i j a b Ha Hb Hij.
  - destruct i; discriminate.
  - simpl unique_from in Ha, Hb.
    destruct (existsb (String.eqb w) seen) eqn:E.
    + apply existsb_eqb_In in E.
      assert (Hna : a <> w).
      { intros ->. apply nth_error_In, unique_from_In in Ha. tauto. }
      assert (Hnb : b <> w).
      { intros ->. apply nth_error_In, unique_from_In in Hb. tauto. }
      rewrite !first_index_neq by assumption.
      apply -> Nat.succ_lt_mono. now apply (IH seen i j).
    + destruct j as [|j]; [lia|]. simpl in Hb.
      assert (Hnb : b <> w).
      { intros ->. apply nth_error_In, unique_from_In in Hb.
        simpl in Hb. tauto. }
      rewrite (first_index_neq b w col Hnb).
      destruct i as [|i].
      * simpl in Ha. injection Ha as <-. simpl.
        rewrite String.eqb_refl. lia.
      * simpl in Ha.
        assert (Hna : a <> w).
        { intros ->. apply nth_error_In, unique_from_In in Ha.
          simpl in Ha. tauto. }
        rewrite (first_index_neq a w col Hna).
        apply -> Nat.succ_lt_mono. apply (IH (w :: seen) i j); [assumption..|lia].
Qed.

Lemma unique_In (col : list string) (v : string) :
  In v (unique col) <-> In v col.
Proof. unfold unique. rewrite unique_from_In. simpl. tauto. Qed.

Lemma unique_NoDup (col : list string) : NoDup (unique col).
Proof. apply unique_from_NoDup. Qed.

Lemma lookup_combine_seq (u : list string) :
  NoDup u ->
  forall k v o,
    lookup v (combine u (seq k (List.length u))) = Some o <->
    exists i, o = k + i /\ nth_error u i = Some v.
Proof.
  induction 1 as [|w u Hw Hu IH]; intros k v o; simpl.
  - split; [discriminate|]. intros [[|i] [_ H]]; discriminate.
  - destruct (String.eqb v w) eqn:E.
    + apply String.eqb_eq in E. subst w. split.
      * intros [= <-]. exists 0. split; [lia|reflexivity].
      * intros [[|i] [-> Hi]]; [f_equal; lia|].
        simpl in Hi. apply nth_error_In in Hi. contradiction.
    + apply String.eqb_neq in E. rewrite IH. split.
      * intros [i [-> Hi]]. exists (S i). split; [lia|exact Hi].
      * intros [[|i] [-> Hi]]; simpl in Hi.
        -- congruence.
        -- exists i. split; [lia|exact Hi].
Qed.

(** The ordinal of a value is its position among the distinct values. *)
Lemma tick_series_loc (col : list string) (v : string) (i : nat) :
  series_loc (tick_series col) v = Some i <-> nth_error (unique col) i = Some v.
Proof.
  unfold series_loc, tick_series. simpl.
  rewrite (lookup_combine_seq (unique col) (unique_NoDup col) 0 v i). split.
  - intros [j [-> Hj]]. exact Hj.
  - intros H. exists i. split; [reflexivity|exact H].
Qed.

Lemma dummy_column_nth (col : list string) (k : nat) (v : string) :
  nth_error col k = Some v ->
  exists i,
    nth_error (dummy_column col) k = Some (Some i) /\
    series_loc (tick_series col) v = Some i /\
    nth_error (unique col) i = Some v.
Proof.
  intros Hk.
  assert (Hin : In v (unique col)).
  { apply unique_In. eapply nth_error_In, Hk. }
  apply In_nth_error in Hin. destruct Hin as [i Hi].
  exists i. pose proof (proj2 (tick_series_loc col v i) Hi) as Hloc.
  split; [|split; assumption].
  unfold dummy_column, series_map.
  rewrite (map_nth_error _ _ _ Hk). now rewrite Hloc.
Qed.

Lemma dimensions_ok (df : DataFrame) :
  dimensions df
  = Ok (map (fun c =>
               dimension_of
                 (map (fun r => nth (layer_index (snd c))
                                    (materials_of (fst c) r) "None"%string) df))
            material_cols).
Proof.
  unfold dimensions. apply LoadFacts.mapM_ok.
  intros c _. now rewrite layer_column_map.
Qed.

(** C9. For every layer column of every frame, the encoding numbers the
    distinct values of the column in the order of their first occurrence:
    the distinct values are listed without repetition, one before another
    exactly when it first occurs earlier in the column, the ordinal of a
    value is its position in that list (the first value seen gets 0, the
    next new one 1, and so on), and the encoded value of every row is the
    ordinal of the value the row holds. *)
Theorem ordinal_encoding_first_occurrence (df : DataFrame) (c : material_col) :
  exists col,
    layer_column c df = Ok col /\
    NoDup (unique col) /\
    (forall v, In v (unique col) <-> In v col) /\
    (forall i j a b,
       nth_error (unique col) i = Some a ->
       nth_error (unique col) j = Some b ->
       i < j -> first_index a col < first_index b col) /\
    index (tick_series col) = unique col /\
    (forall v i,
       series_loc (tick_series col) v = Some i <->
       nth_error (unique col) i = Some v) /\
    List.length (dummy_column col) = List.length df /\
    (forall k v,
       nth_error col k = Some v ->
       exists i,
         nth_error (dummy_column col) k = Some (Some i) /\
         series_loc (tick_series col) v = Some i /\
         nth_error (unique col) i = Some v).
Proof.
  eexists. split; [apply layer_column_map|].
  split; [apply unique_NoDup|].
  split; [apply unique_In|].
  split; [apply unique_from_order|].
  split; [reflexivity|].
  split; [apply tick_series_loc|].
  split.
  - unfold dummy_column, series_map. now rewrite !length_map.
  - apply dummy_column_nth.
Qed.

(** C10. For every layer column with k distinct values the encoding is a
    bijection between those values and 0 .. k-1: the tick texts are the k
    distinct values without repetition, the tick values are 0 .. k-1, the
    tick text at position i is the value whose ordinal is i, two values
    with the same ordinal are equal, every number below k is the ordinal of
    a value of the column, and two rows with the same encoded value hold
    the same material.  The dimension is one of those the plot is given. *)
Theorem ordinal_encoding_bijection (df : DataFrame) (c : material_col) :
  exists col,
    layer_column c df = Ok col /\
    tickvals (dimension_of col) = seq 0 (List.length (unique col)) /\
    ticktext (dimension_of col) = unique col /\
    NoDup (ticktext (dimension_of col)) /\
    NoDup (tickvals (dimension_of col)) /\
    (forall v, In v (ticktext (dimension_of col)) <-> In v col) /\
    (forall i v,
       nth_error (ticktext (dimension_of col)) i = Some v ->
       nth_error (tickvals (dimension_of col)) i = Some i /\
       series_loc (tick_series col) v = Some i) /\
    (forall u v i,
       series_loc (tick_series col) u = Some i ->
       series_loc (tick_series col) v = Some i -> u = v) /\
    (forall i,
       i < List.length (unique col) <->
       exists v, In v col /\ series_loc (tick_series col) v = Some i) /\
    (forall k1 k2 a b o,
       nth_error col k1 = Some a -> nth_error col k2 = Some b ->
       nth_error (dim_values (dimension_of col)) k1 = Some o ->
       nth_error (dim_values (dimension_of col)) k2 = Some o -> a = b) /\
    (In c material_cols ->
     exists ds, dimensions df = Ok ds /\ In (dimension_of col) ds).
Proof.
  eexists. split; [apply layer_column_map|].
  set (col := map _ df).
  split; [reflexivity|]. split; [reflexivity|].
  split; [apply unique_NoDup|].
  split; [apply seq_NoDup|].
  split; [apply unique_In|].
  split.
  { intros i v Hi. simpl in *. split; [|now apply tick_series_loc].
    assert (Hlt : i < List.length (unique col)).
    { apply nth_error_Some. congruence. }
    rewrite (nth_error_nth' _ 0) by now rewrite length_seq.
    now rewrite seq_nth. }
  split.
  { intros u v i Hu Hv. apply tick_series_loc in Hu, Hv. congruence. }
  split.
  { intros i. split.
    - intros Hlt. apply nth_error_Some in Hlt.
      destruct (nth_error (unique col) i) as [v|] eqn:E; [|contradiction].
      exists v. split.
      + apply unique_In. eapply nth_error_In, E.
      + now apply tick_series_loc.
    - intros [v [_ Hv]]. apply tick_series_loc in Hv.
      apply nth_error_Some. congruence. }
  split.
  { intros k1 k2 a b o Ha Hb H1 H2. simpl in H1, H2.
    destruct (dummy_column_nth col k1 a Ha) as [i1 [E1 [_ U1]]].
    destruct (dummy_column_nth col k2 b Hb) as [i2 [E2 [_ U2]]].
    rewrite E1 in H1. rewrite E2 in H2.
    assert (i1 = i2) by congruence. subst. congruence. }
  intros Hc. eexists. split; [apply dimensions_ok|].
  apply (in_map (fun c0 => dimension_of
                   (map (fun r => nth (layer_index (snd c0))
                                      (materials_of (fst c0) r) "None"%string) df))
                material_cols c Hc).
Qed.

End EncodingFacts.

(** ** KPIs, top-10 tables and the most common insulation *)

Module ViewFacts.

Import Py Pandas Dashboard Views Spec SortFacts SummaryFacts LayerFacts
       EncodingFacts.
Local Open Scope Q_scope.

Lemma StronglySorted_app_le {A} (R : A -> A -> Prop) (l1 l2 : list A) :
  StronglySorted R (l1 ++ l2) ->
  forall a b, In a l1 -> In b l2 -> R a b.
Proof.
  induction l1 as [|x l1 IH]; simpl; intros Hs a b Ha Hb; [contradiction|].
  inversion Hs as [|? ? Hs' Hx]; subst.
  destruct Ha as [<-|Ha].
  - rewrite Forall_forall in Hx. apply Hx, in_or_app. now right.
  - now apply IH.
Qed.

Lemma StronglySorted_app_l {A} (R : A -> A -> Prop) (l1 l2 : list A) :
  StronglySorted R (l1 ++ l2) -> StronglySorted R l1.
Proof.
  induction l1 as [|x l1 IH]; simpl; intros Hs; [constructor|].
  inversion Hs as [|? ? Hs' Hx]; subst. constructor; [now apply IH|].
  apply Forall_app in Hx. tauto.
Qed.

(** The Top 10 table of a metric holds the first ten rows of the sorted
    frame (all rows when there are fewer): it ascends in the metric, every
    row shown has a metric no greater than any row left out, and its first
    row is the best package of the KPI block. *)
Theorem top10_lowest (m : metric) (df : DataFrame) :
  exists rest,
    sort_values (metric_of m) df = top10 m df ++ rest /\
    Permutation (top10 m df ++ rest) df /\
    List.length (top10 m df) = Nat.min 10 (List.length df) /\
    StronglySorted (ascending (metric_of m)) (top10 m df) /\
    (forall a b, In a (top10 m df) -> In b rest ->
                 metric_of m a <= metric_of m b) /\
    iloc0 (top10 m df) = best_pkg m df.
Proof.
  unfold top10, head, best_pkg.
  exists (skipn 10 (sort_values (metric_of m) df)).
  pose proof (sort_values_sorted (metric_of m) df) as Hs.
  pose proof (sort_values_perm (metric_of m) df) as Hp.
  rewrite <- (firstn_skipn 10 (sort_values (metric_of m) df)) in Hs, Hp.
  split; [symmetry; apply firstn_skipn|].
  split; [exact Hp|].
  split; [now rewrite length_firstn, sort_values_length|].
  split; [now apply StronglySorted_app_l in Hs|].
  split; [exact (StronglySorted_app_le _ _ _ Hs)|].
  destruct (sort_values (metric_of m) df); reflexivity.
Qed.

(** The best package of a metric carries the minimum of that column. *)
Theorem best_pkg_is_min (m : metric) (df : DataFrame) :
  df <> [] ->
  exists r lo,
    best_pkg m df = Ok r /\ col_min m df = Finite lo /\ metric_of m r == lo.
Proof.
  intros Hne.
  destruct (iloc0_sort_values (metric_of m) Hne) as [r [Hr [Hin Hmin]]].
  destruct df as [|r0 df]; [contradiction|].
  exists r, (fold_left Qmin_of (map (metric_of m) df) (metric_of m r0)).
  split; [exact Hr|]. split; [reflexivity|].
  destruct (fold_Qmin_le (map (metric_of m) df) (metric_of m r0)) as [H1 H2].
  pose proof (fold_Qmin_In (map (metric_of m) df) (metric_of m r0)) as Hq.
  change (metric_of m r0 :: map (metric_of m) df)
    with (map (metric_of m) (r0 :: df)) in Hq.
  apply in_map_iff in Hq. destruct Hq as [rq [Eq Hrq]].
  apply Qle_antisym.
  - rewrite <- Eq. now apply Hmin.
  - destruct Hin as [<-|Hin]; [exact H1|]. apply H2. now apply in_map.
Qed.

Lemma best_pkg_is_min_witness :
  exists r lo,
    best_pkg Gwp [example_A; example_B; example_C] = Ok r /\
    col_min Gwp [example_A; example_B; example_C] = Finite lo /\
    metric_of Gwp r == lo.
Proof.
  apply (best_pkg_is_min Gwp [example_A; example_B; example_C]). discriminate.
Defined.




Local Open Scope nat_scope.

Lemma first_max_spec (entries : list (string * nat)) :
  forall p,
    In (first_max p entries) (p :: entries) /\
    (forall q, In q (p :: entries) -> snd q <= snd (first_max p entries)) /\
    fold_left Nat.max (map snd entries) (snd p) = snd (first_max p entries).
Proof.
  induction entries as [|e entries IH]; intros p; simpl.
  - split; [now left|]. split; [|reflexivity].
    intros q [<-|[]]. lia.
  - destruct (Nat.ltb (snd p) (snd e)) eqn:E.
    + apply Nat.ltb_lt in E. destruct (IH e) as [H1 [H2 H3]].
      split; [now right|]. split.
      * intros q [<-|Hq]; [|now apply H2].
        specialize (H2 e (or_introl eq_refl)). lia.
      * rewrite <- H3. f_equal. lia.
    + apply Nat.ltb_ge in E. destruct (IH p) as [H1 [H2 H3]].
      split; [destruct H1 as [H1|H1]; [now left|right; now right]|]. split.
      * intros q [<-|[<-|Hq]].
        -- apply H2. now left.
        -- specialize (H2 p (or_introl eq_refl)). lia.
        -- apply H2. now right.
      * rewrite <- H3. f_equal. lia.
Qed.

Lemma value_counts_In (col : list string) (v : string) (c : nat) :
  In (v, c) (value_counts col) <->
  In v col /\ c = count_occ string_dec col v.
Proof.
  unfold value_counts. rewrite sort_values_In, in_map_iff. split.
  - intros [w [E Hw]]. injection E as <- <-.
    apply (proj1 (unique_In col w)) in Hw.
    split; [exact Hw|reflexivity].
  - intros [Hv ->]. exists v. split; [reflexivity|now apply unique_In].
Qed.

Lemma wall_insulations_map (df : DataFrame) :
  wall_insulations df
  = Ok (map (fun r => nth 2 (wall_materials r) "None"%string) df).
Proof.
  unfold wall_insulations. apply LoadFacts.mapM_ok.
  intros r _. apply layer_value_nth.
Qed.

(** The insulation column of the Key Insights block is the wall_insulation
    layer column.  On a non-empty frame its most common value is a value of
    the column, the count reported with it is the number of its occurrences
    and no value occurs more often; on the empty frame the lookup of the
    most common value fails. *)
Theorem most_common_insulation (df : DataFrame) :
  exists col,
    wall_insulations df = Ok col /\
    layer_column (wall, insulation) df = Ok col /\
    (df = [] ->
     idxmax (value_counts col) = EmptySequenceError /\
     counts_max (value_counts col) = None) /\
    (df <> [] ->
     exists v c,
       idxmax (value_counts col) = Label v /\
       counts_max (value_counts col) = Some c /\
       In v col /\
       c = count_occ string_dec col v /\
       1 <= c /\
       forall w, count_occ string_dec col w <= c).
Proof.
  eexists. split; [apply wall_insulations_map|].
  split; [apply layer_column_map|].
  split; [intros ->; split; reflexivity|].
  intros Hne.
  set (col := map _ df).
  assert (Hcol : col <> []) by (destruct df; [contradiction|discriminate]).
  destruct (value_counts col) as [|p entries] eqn:E.
  { exfalso. destruct col as [|v col']; [contradiction|].
    assert (H : In (v, count_occ string_dec (v :: col') v) (value_counts (v :: col'))).
    { apply value_counts_In. split; [now left|reflexivity]. }
    rewrite E in H. exact H. }
  destruct (first_max_spec entries p) as [H1 [H2 H3]].
  destruct (first_max p entries) as [v c] eqn:Ef.
  rewrite <- E in H1. apply value_counts_In in H1. destruct H1 as [Hv Hc].
  exists v, c. simpl. rewrite Ef, H3. simpl.
  split; [reflexivity|]. split; [reflexivity|]. split; [exact Hv|].
  split; [exact Hc|]. split.
  - rewrite Hc. now apply count_occ_In.
  - intros w. destruct (in_dec string_dec w col) as [Hw|Hw].
    + apply (H2 (w, count_occ string_dec col w)).
      rewrite <- E. apply value_counts_In. now split.
    + apply (count_occ_not_In string_dec) in Hw. rewrite Hw. lia.
Qed.

Lemma ordinal_max_fold (l : list (option nat)) (m : nat) :
  (forall o, In o l -> exists i, o = Some i /\ i <= m) ->
  forall acc,
    (acc = None \/ exists a, acc = Some a /\ a <= m) ->
    (In (Some m) l \/ acc = Some m) ->
    fold_left
      (fun acc v =>
         match acc, v with
         | Some a, Some b => Some (Nat.max a b)
         | None, _ => v
         | _, None => acc
         end) l acc = Some m.
Proof.
  induction l as [|o l IH]; simpl; intros Hall acc Hacc Hm.
  - destruct Hm as [[]|Hm]. exact Hm.
  - destruct (Hall o (or_introl eq_refl)) as [i [-> Hi]].
    apply IH.
    + intros o' Ho'. apply Hall. now right.
    + right. destruct Hacc as [->|[a [-> Ha]]].
      * exists i. now split.
      * exists (Nat.max a i). split; [reflexivity|lia].
    + destruct Hm as [[Hm|Hm]|Hm].
      * injection Hm as ->. right.
        destruct Hacc as [->|[a [-> Ha]]]; [reflexivity|]. f_equal. lia.
      * now left.
      * subst acc. right. f_equal. lia.
Qed.

(** Every categorical axis covers its values: on a non-empty frame the
    upper end of the axis range is k - 1 for a column with k distinct
    values, and every encoded value of the column is an ordinal between 0
    and that end; on the empty frame the upper end is NaN. *)
Theorem axis_range (df : DataFrame) (c : material_col) :
  exists col,
    layer_column c df = Ok col /\
    (df = [] -> range_max (dimension_of col) = None) /\
    (df <> [] ->
     1 <= List.length (unique col) /\
     range_max (dimension_of col) = Some (List.length (unique col) - 1)) /\
    (forall k o,
       nth_error (dim_values (dimension_of col)) k = Some o ->
       exists i, o = Some i /\ i <= List.length (unique col) - 1).
Proof.
  eexists. split; [apply layer_column_map|].
  set (col := map _ df).
  assert (Hvals : forall o, In o (dummy_column col) ->
                    exists i, o = Some i /\ i < List.length (unique col)).
  { intros o Ho. unfold dummy_column, series_map in Ho.
    apply in_map_iff in Ho. destruct Ho as [v [<- Hv]].
    apply In_nth_error in Hv. destruct Hv as [k Hk].
    destruct (dummy_column_nth col k v Hk) as [i [_ [Hloc Hi]]].
    exists i. split; [exact Hloc|]. apply nth_error_Some. congruence. }
  split; [intros ->; reflexivity|]. split.
  - intros Hne.
    assert (Hcol : col <> []) by (destruct df; [contradiction|discriminate]).
    assert (Hk : 1 <= List.length (unique col)).
    { destruct col as [|v col']; [contradiction|].
      assert (Hv : In v (unique (v :: col'))) by (apply unique_In; now left).
      destruct (unique (v :: col')); [contradiction|simpl; lia]. }
    split; [exact Hk|]. simpl. unfold ordinal_max. apply ordinal_max_fold.
    + intros o Ho. destruct (Hvals o Ho) as [i [-> Hi]]. exists i.
      split; [reflexivity|lia].
    + now left.
    + left.
      destruct (nth_error (unique col) (List.length (unique col) - 1))
        as [v|] eqn:Ev; [|apply nth_error_None in Ev; lia].
      assert (Hv : In v col).
      { apply unique_In. eapply nth_error_In, Ev. }
      apply In_nth_error in Hv. destruct Hv as [k Hkv].
      destruct (dummy_column_nth col k v Hkv) as [i [Hd [_ Hi]]].
      assert (i = List.length (unique col) - 1).
      { apply (proj1 (NoDup_nth_error (unique col)) (unique_NoDup col));
          [apply nth_error_Some; congruence|congruence]. }
      subst i. eapply nth_error_In, Hd.
  - intros k o Ho. simpl in Ho. apply nth_error_In in Ho.
    destruct (Hvals o Ho) as [i [-> Hi]]. exists i. split; [reflexivity|lia].
Qed.

(** The plot always gets six categorical axes, the roof layers before the
    wall layers; each axis has one encoded value per record and as many
    tick values as tick texts. *)
Theorem dimensions_shape (df : DataFrame) :
  exists ds,
    dimensions df = Ok ds /\
    List.length ds = 6 /\
    Forall2 (fun c d =>
               exists col, layer_column c df = Ok col /\ d = dimension_of col)
            [(roof, cladding); (roof, membrane); (roof, insulation);
             (wall, cladding); (wall, membrane); (wall, insulation)] ds /\
    forall d, In d ds ->
              List.length (dim_values d) = List.length df /\
              List.length (tickvals d) = List.length (ticktext d).
Proof.
  eexists. split; [apply dimensions_ok|].
  split; [reflexivity|]. split.
  - simpl. repeat constructor; eexists; (split; [apply layer_column_map|]);
      reflexivity.
  - intros d Hd. apply in_map_iff in Hd. destruct Hd as [c [<- _]].
    simpl. unfold dummy_column, series_map.
    rewrite !length_map, length_seq. split; reflexivity.
Qed.

End ViewFacts.

(** ** More on the multi-criteria selector *)

Module SelectorMore.

Import Py Pandas Dashboard Views Spec SortFacts RankFacts
       SelectorFacts ViewFacts.
Local Open Scope Q_scope.

Lemma sort_values_ext {A} (k1 k2 : A -> Q) (l : list A) :
  (forall a b, In a l -> In b l ->
               Qle_bool (k1 a) (k1 b) = Qle_bool (k2 a) (k2 b)) ->
  sort_values k1 l = sort_values k2 l.
Proof.
  intros H.
  pose proof (@sort_values_map A A (fun a => a) k1 k2 l H) as E.
  now rewrite !map_id in E.
Qed.

(** The rows of the scored and sorted frame are the frame sorted by the
    score of each row. *)
Lemma sorted_rows (df : DataFrame) (gw cw hw : Q) :
  map fst (sorted_by_score df (score_column df gw cw hw))
  = sort_values (score_of df gw cw hw) df.
Proof.
  rewrite sorted_by_score_rows.
  rewrite (@sort_values_map _ _ fst snd (score_of df gw cw hw)).
  - now rewrite map_map, map_id.
  - intros a b Ha Hb. apply in_map_iff in Ha, Hb.
    destruct Ha as [ra [<- _]], Hb as [rb [<- _]]. reflexivity.
Qed.

Lemma sorted_pairs (df : DataFrame) (gw cw hw : Q) (p : package_row * Q) :
  In p (sorted_by_score df (score_column df gw cw hw)) ->
  In (fst p) df /\ snd p = score_of df gw cw hw (fst p).
Proof.
  rewrite sorted_by_score_rows. intros H.
  apply (proj1 (@sort_values_In _ snd _ p)) in H.
  apply in_map_iff in H. destruct H as [r [<- Hr]]. now split.
Qed.

Lemma normalized_nonneg (gw cw hw : Q) :
  0 <= gw -> 0 <= cw -> 0 <= hw -> ~ gw + cw + hw == 0 ->
  0 < gw + cw + hw /\
  0 <= gw / (gw + cw + hw) /\ 0 <= cw / (gw + cw + hw) /\
  0 <= hw / (gw + cw + hw) /\
  gw / (gw + cw + hw) + cw / (gw + cw + hw) + hw / (gw + cw + hw) == 1.
Proof.
  intros Hg Hc Hh Hne.
  assert (Hpos : 0 < gw + cw + hw) by lra.
  split; [exact Hpos|].
  repeat split; try (apply Qle_shift_div_l; [exact Hpos|lra]).
  field. exact Hne.
Qed.

Lemma rank_of_mono (xs : list Q) (x y : Q) :
  In x xs -> In y xs ->
  (x <= y -> rank_of xs x <= rank_of xs y) /\
  (x < y -> rank_of xs x < rank_of xs y).
Proof.
  intros Hx Hy. split.
  - intros H. apply Qle_bool_iff. rewrite (rank_of_le xs x y Hx Hy).
    now apply Qle_bool_iff.
  - intros H. apply Qnot_le_lt. intros Hle.
    apply Qle_bool_iff in Hle. rewrite (rank_of_le xs y x Hy Hx) in Hle.
    apply Qle_bool_iff in Hle. lra.
Qed.

Lemma StronglySorted_app_r {A} (R : A -> A -> Prop) (l1 l2 : list A) :
  StronglySorted R (l1 ++ l2) -> StronglySorted R l2.
Proof.
  induction l1 as [|x l1 IH]; simpl; intros Hs; [exact Hs|].
  inversion Hs; subst. now apply IH.
Qed.

(** A record that is no worse than another on all three metrics never gets
    the higher score; if it is strictly better on a metric whose slider is
    above 0 its score is strictly lower and the other record is never
    listed ahead of it. *)
Theorem dominated_never_ahead (df : DataFrame) (gw cw hw : Q)
        (r r' : package_row) :
  0 <= gw -> 0 <= cw -> 0 <= hw -> ~ gw + cw + hw == 0 ->
  In r df -> In r' df ->
  gwp_kgco2e r <= gwp_kgco2e r' ->
  cost_sek r <= cost_sek r' ->
  heating_demand_kwh_per_m2 r <= heating_demand_kwh_per_m2 r' ->
  exists g c h score top,
    multi_criteria_selector df gw cw hw = TopCustom g c h score top /\
    score_of df g c h r <= score_of df g c h r' /\
    ((0 < gw /\ gwp_kgco2e r < gwp_kgco2e r') \/
     (0 < cw /\ cost_sek r < cost_sek r') \/
     (0 < hw /\ heating_demand_kwh_per_m2 r < heating_demand_kwh_per_m2 r') ->
     score_of df g c h r < score_of df g c h r' /\
     forall l1 l2 s',
       sorted_by_score df score = l1 ++ (r', s') :: l2 ->
       ~ In r (map fst l2)).
Proof.
  intros Hg Hc Hh Hne Hr Hr' Dg Dc Dh.
  pose proof (selector_ranked df gw cw hw Hne) as Hsel. cbv zeta in Hsel.
  eexists _, _, _, _, _. split; [exact Hsel|].
  destruct (normalized_nonneg gw cw hw Hg Hc Hh Hne) as [T [G [C [H _]]]].
  set (g := gw / (gw + cw + hw)) in *.
  set (c := cw / (gw + cw + hw)) in *.
  set (h := hw / (gw + cw + hw)) in *.
  destruct (rank_of_mono (map gwp_kgco2e df) (gwp_kgco2e r) (gwp_kgco2e r')
              (in_map _ _ _ Hr) (in_map _ _ _ Hr')) as [Mg Sg].
  destruct (rank_of_mono (map cost_sek df) (cost_sek r) (cost_sek r')
              (in_map _ _ _ Hr) (in_map _ _ _ Hr')) as [Mc Sc].
  destruct (rank_of_mono (map heating_demand_kwh_per_m2 df)
              (heating_demand_kwh_per_m2 r) (heating_demand_kwh_per_m2 r')
              (in_map _ _ _ Hr) (in_map _ _ _ Hr')) as [Mh Sh].
  pose proof (Qmult_le_compat_r _ _ g (Mg Dg) G) as Lg.
  pose proof (Qmult_le_compat_r _ _ c (Mc Dc) C) as Lc.
  pose proof (Qmult_le_compat_r _ _ h (Mh Dh) H) as Lh.
  split; [unfold score_of; lra|].
  intros Hstrict.
  assert (Hlt : score_of df g c h r < score_of df g c h r').
  { unfold score_of. destruct Hstrict as [[P S]|[[P S]|[P S]]].
    - assert (P' : 0 < g) by (apply Qlt_shift_div_l; [exact T|lra]).
      pose proof (Qmult_lt_compat_r _ _ g P' (Sg S)). lra.
    - assert (P' : 0 < c) by (apply Qlt_shift_div_l; [exact T|lra]).
      pose proof (Qmult_lt_compat_r _ _ c P' (Sc S)). lra.
    - assert (P' : 0 < h) by (apply Qlt_shift_div_l; [exact T|lra]).
      pose proof (Qmult_lt_compat_r _ _ h P' (Sh S)). lra. }
  split; [exact Hlt|].
  intros l1 l2 s' Hsplit Hin.
  apply in_map_iff in Hin. destruct Hin as [q [Hq Hql2]].
  pose proof (sort_values_sorted snd (combine df (score_column df g c h)))
    as Hs.
  fold (sorted_by_score df (score_column df g c h)) in Hs.
  assert (Hp' : In (r', s') (sorted_by_score df (score_column df g c h))).
  { rewrite Hsplit. apply in_or_app. right. now left. }
  assert (Hqin : In q (sorted_by_score df (score_column df g c h))).
  { rewrite Hsplit. apply in_or_app. right. now right. }
  apply sorted_pairs in Hp', Hqin. simpl in Hp'.
  destruct Hp' as [_ Es'], Hqin as [_ Eq].
  rewrite Hsplit in Hs. apply StronglySorted_app_r in Hs.
  inversion Hs as [|? ? _ Hall]; subst.
  rewrite Forall_forall in Hall. specialize (Hall q Hql2).
  unfold ascending in Hall. simpl in Hall. rewrite Eq in Hall. lra.
Qed.

Lemma dominated_never_ahead_witness :
  exists g c h score top,
    multi_criteria_selector
      [example_A; example_B; example_C;
       mkRow "D" [] [] EmptyString EmptyString 60 30 200]
      (2 # 5) (3 # 10) (3 # 10)
    = TopCustom g c h score top /\
    score_of [example_A; example_B; example_C;
              mkRow "D" [] [] EmptyString EmptyString 60 30 200]
             g c h example_A
    <= score_of [example_A; example_B; example_C;
                 mkRow "D" [] [] EmptyString EmptyString 60 30 200]
                g c h (mkRow "D" [] [] EmptyString EmptyString 60 30 200).
Proof.
  destruct (dominated_never_ahead
              [example_A; example_B; example_C;
               mkRow "D" [] [] EmptyString EmptyString 60 30 200]
              (2 # 5) (3 # 10) (3 # 10)
              example_A (mkRow "D" [] [] EmptyString EmptyString 60 30 200))
    as [g [c [h [score [top [Hsel [Hle _]]]]]]].
  - discriminate.
  - discriminate.
  - discriminate.
  - discriminate.
  - left. reflexivity.
  - right. right. right. left. reflexivity.
  - discriminate.
  - discriminate.
  - discriminate.
  - exists g, c, h, score, top. split; [exact Hsel|exact Hle].
Defined.

Lemma single_score (df : DataFrame) (g c h : Q) (r : package_row) :
  (g == 1 -> c == 0 -> h == 0 ->
   score_of df g c h r == rank_of (map gwp_kgco2e df) (gwp_kgco2e r)) /\
  (g == 0 -> c == 1 -> h == 0 ->
   score_of df g c h r == rank_of (map cost_sek df) (cost_sek r)) /\
  (g == 0 -> c == 0 -> h == 1 ->
   score_of df g c h r
   == rank_of (map heating_demand_kwh_per_m2 df)
              (heating_demand_kwh_per_m2 r)).
Proof.
  unfold score_of. repeat split; intros -> -> ->; ring.
Qed.

Lemma single_table (df : DataFrame) (g c h : Q) (m : metric) :
  (forall r, score_of df g c h r
             == rank_of (map (metric_of m) df) (metric_of m r)) ->
  map fst (firstn 6 (sorted_by_score df (score_column df g c h)))
  = head 6 (top10 m df).
Proof.
  intros Hscore. unfold top10, head.
  rewrite firstn_firstn. change (Nat.min 6 10) with 6%nat.
  rewrite <- firstn_map, sorted_rows. f_equal.
  apply sort_values_ext. intros a b Ha Hb. rewrite !Hscore.
  apply rank_of_le; now apply in_map.
Qed.

(** When a single slider is above 0 the custom table shows the first six
    rows of the Top 10 table of that metric. *)
Theorem single_criterion_is_top10 (df : DataFrame) (w : Q) :
  0 < w ->
  (exists g c h score top,
     multi_criteria_selector df w 0 0 = TopCustom g c h score top /\
     map fst top = head 6 (top10 Gwp df)) /\
  (exists g c h score top,
     multi_criteria_selector df 0 w 0 = TopCustom g c h score top /\
     map fst top = head 6 (top10 Cost df)) /\
  (exists g c h score top,
     multi_criteria_selector df 0 0 w = TopCustom g c h score top /\
     map fst top = head 6 (top10 Heating df)).
Proof.
  intros Hw.
  assert (H1 : ~ w + 0 + 0 == 0) by lra.
  assert (H2 : ~ 0 + w + 0 == 0) by lra.
  assert (H3 : ~ 0 + 0 + w == 0) by lra.
  assert (Hw0 : ~ w == 0) by lra.
  split; [|split].
  - pose proof (selector_ranked df w 0 0 H1) as Hsel. cbv zeta in Hsel.
    eexists _, _, _, _, _. split; [exact Hsel|].
    apply single_table. intros r. apply single_score; field; exact Hw0.
  - pose proof (selector_ranked df 0 w 0 H2) as Hsel. cbv zeta in Hsel.
    eexists _, _, _, _, _. split; [exact Hsel|].
    apply single_table. intros r. apply single_score; field; exact Hw0.
  - pose proof (selector_ranked df 0 0 w H3) as Hsel. cbv zeta in Hsel.
    eexists _, _, _, _, _. split; [exact Hsel|].
    apply single_table. intros r. apply single_score; field; exact Hw0.
Qed.

Lemma single_criterion_is_top10_witness :
  exists g c h score top,
    multi_criteria_selector [example_A; example_B; example_C] 0 (7 # 10) 0
    = TopCustom g c h score top /\
    map fst top = head 6 (top10 Cost [example_A; example_B; example_C]).
Proof.
  apply (single_criterion_is_top10 [example_A; example_B; example_C] (7 # 10)).
  reflexivity.
Defined.

(** The custom table holds the first six rows of the frame sorted by
    score (all rows when there are fewer): no record left out has a lower
    score than a record shown. *)
Theorem top_custom_lowest (df : DataFrame) (gw cw hw : Q) :
  ~ gw + cw + hw == 0 ->
  exists g c h score top rest,
    multi_criteria_selector df gw cw hw = TopCustom g c h score top /\
    sorted_by_score df score = top ++ rest /\
    List.length top = Nat.min 6 (List.length df) /\
    Permutation (map fst (top ++ rest)) df /\
    forall a b, In a top -> In b rest -> snd a <= snd b.
Proof.
  intros Hne.
  pose proof (selector_ranked df gw cw hw Hne) as Hsel. cbv zeta in Hsel.
  eexists _, _, _, _, _, _. split; [exact Hsel|].
  set (score := score_column df _ _ _).
  split; [symmetry; apply (firstn_skipn 6)|].
  split.
  { rewrite length_firstn. unfold sorted_by_score.
    rewrite sort_values_length, length_combine.
    unfold score. rewrite score_column_rows, length_map. lia. }
  split.
  { rewrite firstn_skipn. unfold score. rewrite sorted_rows.
    apply sort_values_perm. }
  pose proof (sort_values_sorted snd (combine df score)) as Hs.
  fold (sorted_by_score df score) in Hs.
  rewrite <- (firstn_skipn 6 (sorted_by_score df score)) in Hs.
  exact (StronglySorted_app_le _ _ _ Hs).
Qed.

Lemma top_custom_lowest_witness :
  exists g c h score top rest,
    multi_criteria_selector [example_A; example_B; example_C]
                            (2 # 5) (3 # 10) (3 # 10)
    = TopCustom g c h score top /\
    sorted_by_score [example_A; example_B; example_C] score = top ++ rest /\
    List.length top = Nat.min 6 (List.length [example_A; example_B; example_C]) /\
    Permutation (map fst (top ++ rest)) [example_A; example_B; example_C] /\
    forall a b, In a top -> In b rest -> snd a <= snd b.
Proof.
  apply (top_custom_lowest [example_A; example_B; example_C]
                           (2 # 5) (3 # 10) (3 # 10)).
  discriminate.
Defined.

(** *** The order of the rows in the file *)

Lemma rank_of_perm (xs ys : list Q) (x : Q) :
  Permutation xs ys -> In x xs -> rank_of xs x == rank_of ys x.
Proof.
  intros Hp Hx.
  assert (Hy : In x ys) by now apply (Permutation_in _ Hp).
  rewrite (rank_of_fractional xs x (count_eq_In xs x Hx)).
  rewrite (rank_of_fractional ys x (count_eq_In ys x Hy)).
  unfold fractional_rank.
  now rewrite (count_lt_perm xs ys x Hp), (count_eq_perm xs ys x Hp).
Qed.

Lemma score_of_perm (df df' : DataFrame) (g c h : Q) (r : package_row) :
  Permutation df df' -> In r df ->
  score_of df g c h r == score_of df' g c h r.
Proof.
  intros Hp Hr. unfold score_of.
  rewrite (rank_of_perm (map gwp_kgco2e df) (map gwp_kgco2e df'));
    [|now apply Permutation_map|now apply in_map].
  rewrite (rank_of_perm (map cost_sek df) (map cost_sek df'));
    [|now apply Permutation_map|now apply in_map].
  rewrite (rank_of_perm (map heating_demand_kwh_per_m2 df)
                        (map heating_demand_kwh_per_m2 df'));
    [|now apply Permutation_map|now apply in_map].
  reflexivity.
Qed.

(** The order of the rows in the file does not matter to the ranking: a
    record gets the same score in a reordered frame, and when different
    records never share a score the custom table lists the same records in
    the same order. *)
Theorem row_order_irrelevant (df df' : DataFrame) (gw cw hw : Q) :
  Permutation df df' -> ~ gw + cw + hw == 0 ->
  exists g c h score top score' top',
    multi_criteria_selector df gw cw hw = TopCustom g c h score top /\
    multi_criteria_selector df' gw cw hw = TopCustom g c h score' top' /\
    (forall r, In r df -> score_of df g c h r == score_of df' g c h r) /\
    ((forall a b, In a df -> In b df ->
                  score_of df g c h a == score_of df g c h b -> a = b) ->
     map fst top = map fst top').
Proof.
  intros Hp Hne.
  pose proof (selector_ranked df gw cw hw Hne) as H1.
  pose proof (selector_ranked df' gw cw hw Hne) as H2.
  cbv zeta in H1, H2.
  eexists _, _, _, _, _, _, _. split; [exact H1|]. split; [exact H2|].
  split; [intros r Hr; now apply score_of_perm|].
  intros Hinj. rewrite <- !firstn_map, !sorted_rows. f_equal.
  set (g := gw / (gw + cw + hw)). set (c := cw / (gw + cw + hw)).
  set (h := hw / (gw + cw + hw)).
  assert (Hkey : sort_values (score_of df' g c h) df'
                 = sort_values (score_of df g c h) df').
  { apply sort_values_ext. intros a b Ha Hb.
    apply Permutation_sym in Hp.
    apply (Permutation_in _ Hp) in Ha. apply (Permutation_in _ Hp) in Hb.
    apply Permutation_sym in Hp.
    now rewrite (score_of_perm df df' g c h a Hp Ha),
                (score_of_perm df df' g c h b Hp Hb). }
  rewrite Hkey.
  apply (@sorted_perm_unique _ (score_of df g c h)).
  - intros a b Ha Hb. apply Hinj.
    + now apply (proj1 (@sort_values_In _ (score_of df g c h) df a)).
    + now apply (proj1 (@sort_values_In _ (score_of df g c h) df b)).
  - eapply perm_trans; [apply sort_values_perm|].
    eapply perm_trans; [exact Hp|]. apply Permutation_sym, sort_values_perm.
  - apply sort_values_sorted.
  - apply sort_values_sorted.
Qed.

Lemma row_order_irrelevant_witness :
  exists g c h score top score' top',
    multi_criteria_selector [example_A; example_B; example_C] 1 0 0
    = TopCustom g c h score top /\
    multi_criteria_selector [example_C; example_B; example_A] 1 0 0
    = TopCustom g c h score' top' /\
    (forall r, In r [example_A; example_B; example_C] ->
               score_of [example_A; example_B; example_C] g c h r
               == score_of [example_C; example_B; example_A] g c h r).
Proof.
  destruct (row_order_irrelevant
              [example_A; example_B; example_C]
              [example_C; example_B; example_A] 1 0 0)
    as [g [c [h [score [top [score' [top' [H1 [H2 [H3 _]]]]]]]]]].
  - apply perm_trans with [example_B; example_A; example_C];
      [apply perm_swap|].
    apply perm_trans with [example_B; example_C; example_A];
      [apply perm_skip, perm_swap|].
    apply perm_swap.
  - discriminate.
  - exists g, c, h, score, top, score', top'.
    split; [exact H1|]. split; [exact H2|exact H3].
Defined.

End SelectorMore.

(** ** Printing and parsing list cells *)

Module UnicodeFacts.

Import Unicode.
Local Open Scope N_scope.

Lemma hex_value_digit (d : N) : d < 16 -> hex_value (hex_digit d) = Some d.
Proof.
  intros H.
  assert (E : d = 0 \/ d = 1 \/ d = 2 \/ d = 3 \/ d = 4 \/ d = 5 \/ d = 6
              \/ d = 7 \/ d = 8 \/ d = 9 \/ d = 10 \/ d = 11 \/ d = 12
              \/ d = 13 \/ d = 14 \/ d = 15) by lia.
  repeat (destruct E as [->|E]; [reflexivity|]). now subst.
Qed.

Lemma string_body_plain (q c : N) (rest : ustring) :
  string_body q Plain (c :: rest)
  = if c =? q then Some ([], rest)
    else if c =? backslash then string_body q Escape rest
    else if (c =? 10) || (c =? 13) || (c =? 0) || surrogate c
            || (max_code_point <? c) then None
    else prepend c (string_body q Plain rest).
Proof. reflexivity. Qed.

Lemma string_body_escape (q c : N) (rest : ustring) :
  string_body q Escape (c :: rest)
  = match simple_escape c with
    | Some ch => prepend ch (string_body q Plain rest)
    | None =>
        if c =? chr "x" then string_body q (Hex 1 0) rest
        else if c =? chr "u" then string_body q (Hex 3 0) rest
        else if c =? chr "U" then string_body q (Hex 7 0) rest
        else None
    end.
Proof. reflexivity. Qed.

Lemma string_body_digit (q c : N) (more : nat) (acc : N) (rest : ustring) :
  string_body q (Hex more acc) (c :: rest)
  = match hex_value c with
    | Some d =>
        match more with
        | O => if 16 * acc + d <=? max_code_point
               then prepend (16 * acc + d) (string_body q Plain rest)
               else None
        | S more1 => string_body q (Hex more1 (16 * acc + d)) rest
        end
    | None => None
    end.
Proof. reflexivity. Qed.

Lemma hex_S (n : nat) (c : N) :
  hex (S n) c = hex_digit ((c / 16 ^ N.of_nat n) mod 16) :: hex n c.
Proof. reflexivity. Qed.

(** Reading the digits of an escape gives back the code point. *)
Lemma string_body_hex (q : N) (n : nat) :
  forall (acc c : N) (rest : ustring),
    acc * 16 ^ N.of_nat (S n) + c mod 16 ^ N.of_nat (S n) <= max_code_point ->
    string_body q (Hex n acc) (hex (S n) c ++ rest)
    = prepend (acc * 16 ^ N.of_nat (S n) + c mod 16 ^ N.of_nat (S n))
              (string_body q Plain rest).
Proof.
  induction n as [|n IH]; intros acc c rest Hmax.
  - rewrite hex_S. change (hex 0 c) with (@nil N).
    change (16 ^ N.of_nat 0) with 1. change (16 ^ N.of_nat 1) with 16 in *.
    rewrite N.div_1_r. simpl app.
    rewrite string_body_digit, hex_value_digit
      by (apply N.mod_lt; discriminate).
    replace (16 * acc + c mod 16) with (acc * 16 + c mod 16) by lia.
    apply N.leb_le in Hmax. now rewrite Hmax.
  - rewrite (hex_S (S n)), <- app_comm_cons.
    rewrite string_body_digit, hex_value_digit
      by (apply N.mod_lt; discriminate).
    assert (Hpow : 16 ^ N.of_nat (S (S n)) = 16 ^ N.of_nat (S n) * 16).
    { rewrite (Nat2N.inj_succ (S n)), N.pow_succ_r'. lia. }
    assert (Hmod : c mod 16 ^ N.of_nat (S (S n))
                   = c mod 16 ^ N.of_nat (S n)
                     + 16 ^ N.of_nat (S n) * ((c / 16 ^ N.of_nat (S n)) mod 16)).
    { rewrite Hpow. apply N.Div0.mod_mul_r. }
    rewrite Hmod, Hpow in Hmax. rewrite Hmod, Hpow.
    set (p := 16 ^ N.of_nat (S n)) in *.
    set (d := (c / p) mod 16) in *.
    cbv beta match. rewrite IH.
    + fold p. f_equal. lia.
    + fold p. lia.
Qed.

Lemma escape_reads (q : N) (letter : ascii) (n : nat) (c : N) (rest : ustring) :
  q = quote1 \/ q = quote2 ->
  (letter = "x"%char /\ n = 1%nat) \/ (letter = "u"%char /\ n = 3%nat)
  \/ (letter = "U"%char /\ n = 7%nat) ->
  c < 16 ^ N.of_nat (S n) -> c <= max_code_point ->
  string_body q Plain (escape letter (S n) c ++ rest)
  = prepend c (string_body q Plain rest).
Proof.
  intros Hq Hl Hc Hmax. unfold escape.
  change ((backslash :: chr letter :: hex (S n) c) ++ rest)
    with (backslash :: chr letter :: (hex (S n) c ++ rest)).
  rewrite string_body_plain.
  assert (Hbq : (backslash =? q) = false) by (destruct Hq as [->| ->]; reflexivity).
  rewrite Hbq. change (backslash =? backslash) with true. cbv iota.
  rewrite string_body_escape.
  assert (Hread : string_body q (Hex n 0) (hex (S n) c ++ rest)
                  = prepend c (string_body q Plain rest)).
  { rewrite string_body_hex; rewrite N.mod_small by exact Hc;
      [reflexivity|simpl; exact Hmax]. }
  destruct Hl as [[-> ->]|[[-> ->]|[-> ->]]]; exact Hread.
Qed.

Section WithTable.

Variable printable : N -> bool.

(** No surrogate is printable (they are of category [Cs]). *)
Hypothesis printable_scalar : forall c, printable c = true -> surrogate c = false.

(** Reading back one printed character. *)
Lemma string_body_repr_char (q c : N) (rest : ustring) :
  q = quote1 \/ q = quote2 -> code_point c ->
  string_body q Plain (repr_char printable q c ++ rest)
  = prepend c (string_body q Plain rest).
Proof.
  intros Hq Hc. unfold code_point, max_code_point in Hc.
  assert (Hbq : (backslash =? q) = false) by (destruct Hq as [->| ->]; reflexivity).
  assert (Hraw : (c =? q) = false -> (c =? backslash) = false ->
                 c <> 10 -> c <> 13 -> c <> 0 -> surrogate c = false ->
                 string_body q Plain ([c] ++ rest)
                 = prepend c (string_body q Plain rest)).
  { intros E1 E2 H10 H13 H0 Hs. simpl app.
    rewrite string_body_plain, E1, E2, Hs.
    apply N.eqb_neq in H10, H13, H0. rewrite H10, H13, H0.
    replace (max_code_point <? c) with false; [reflexivity|].
    symmetry. apply N.ltb_ge. exact Hc. }
  assert (Hlow : c < 55296 -> surrogate c = false).
  { intros H. unfold surrogate. apply andb_false_iff. left.
    apply N.leb_gt. exact H. }
  unfold repr_char.
  destruct ((c =? q) || (c =? backslash)) eqn:E1.
  { change ([backslash; c] ++ rest) with (backslash :: c :: rest).
    rewrite string_body_plain, Hbq. change (backslash =? backslash) with true.
    cbv iota. rewrite string_body_escape.
    apply orb_true_iff in E1. destruct E1 as [E|E]; apply N.eqb_eq in E; subst c.
    - destruct Hq as [->| ->]; reflexivity.
    - reflexivity. }
  apply orb_false_iff in E1. destruct E1 as [Eq Eb].
  destruct (c =? 9) eqn:E9.
  { apply N.eqb_eq in E9. subst c.
    change ([backslash; chr "t"] ++ rest) with (backslash :: chr "t" :: rest).
    rewrite string_body_plain, Hbq. reflexivity. }
  destruct (c =? 10) eqn:E10.
  { apply N.eqb_eq in E10. subst c.
    change ([backslash; chr "n"] ++ rest) with (backslash :: chr "n" :: rest).
    rewrite string_body_plain, Hbq. reflexivity. }
  destruct (c =? 13) eqn:E13.
  { apply N.eqb_eq in E13. subst c.
    change ([backslash; chr "r"] ++ rest) with (backslash :: chr "r" :: rest).
    rewrite string_body_plain, Hbq. reflexivity. }
  apply N.eqb_neq in E10, E13.
  destruct ((c <? 32) || (c =? 127)) eqn:Ectl.
  { apply escape_reads; [exact Hq|now left| |exact Hc].
    apply orb_true_iff in Ectl. destruct Ectl as [E|E].
    - apply N.ltb_lt in E. simpl. lia.
    - apply N.eqb_eq in E. subst c. reflexivity. }
  apply orb_false_iff in Ectl. destruct Ectl as [E32 E127].
  apply N.ltb_ge in E32. apply N.eqb_neq in E127.
  destruct (c <? 127) eqn:Easc.
  { apply N.ltb_lt in Easc. apply Hraw; try assumption; try lia.
    apply Hlow. lia. }
  apply N.ltb_ge in Easc.
  destruct (printable c) eqn:Ep.
  { apply Hraw; try assumption; try lia. now apply printable_scalar. }
  destruct (c <=? 255) eqn:E255.
  { apply N.leb_le in E255.
    apply escape_reads; [exact Hq|now left| |exact Hc]. simpl. lia. }
  destruct (c <=? 65535) eqn:E65535.
  { apply N.leb_le in E65535.
    apply escape_reads; [exact Hq|right; now left| |exact Hc]. simpl. lia. }
  apply escape_reads; [exact Hq|right; now right| |exact Hc]. simpl. lia.
Qed.

Lemma repr_quote_cases (s : ustring) :
  repr_quote s = quote1 \/ repr_quote s = quote2.
Proof.
  unfold repr_quote.
  destruct (contains quote1 s && negb (contains quote2 s)); [now right|now left].
Qed.

(** The body of a printed string reads back as the string. *)
Lemma string_body_repr_body (q : N) (s rest : ustring) :
  q = quote1 \/ q = quote2 -> Forall code_point s ->
  string_body q Plain (repr_body printable q s ++ q :: rest) = Some (s, rest).
Proof.
  intros Hq Hs. induction Hs as [|c s Hc Hs IH].
  - change (string_body q Plain (q :: rest) = Some ([], rest)).
    rewrite string_body_plain, N.eqb_refl. reflexivity.
  - unfold repr_body in *. simpl flat_map. rewrite <- app_assoc.
    rewrite string_body_repr_char by assumption.
    now rewrite IH.
Qed.

Lemma skip_ws_blanks (n : nat) (s : ustring) :
  skip_ws (repeat (chr " ") n ++ s) = skip_ws s.
Proof. induction n as [|n IH]; simpl; [reflexivity|exact IH]. Qed.

Lemma parse_value_eq (fuel : nat) (s : ustring) :
  parse_value (S fuel) s
  = match skip_ws s with
    | [] => None
    | c :: rest =>
        if (c =? quote1) || (c =? quote2) then
          match string_body c Plain rest with
          | Some (b, r) => Some (PyStr b, r)
          | None => None
          end
        else if c =? chr "[" then
          match parse_items fuel (chr "]") rest with
          | Some (vs, _, r) => Some (PyList vs, r)
          | None => None
          end
        else if c =? chr "(" then
          match parse_items fuel (chr ")") rest with
          | Some ([v], false, r) => Some (v, r)
          | Some (vs, _, r) => Some (PyTuple vs, r)
          | None => None
          end
        else None
    end.
Proof. reflexivity. Qed.

Lemma parse_items_eq (fuel : nat) (close : N) (s : ustring) :
  parse_items (S fuel) close s
  = match skip_ws s with
    | [] => None
    | c :: rest =>
        if c =? close then Some ([], false, rest)
        else
          match parse_value fuel s with
          | None => None
          | Some (v, r1) =>
              match skip_ws r1 with
              | [] => None
              | d :: r2 =>
                  if d =? chr "," then
                    match parse_items fuel close r2 with
                    | Some (vs, _, r3) => Some (v :: vs, true, r3)
                    | None => None
                    end
                  else if d =? close then Some ([v], false, r2)
                  else None
              end
          end
    end.
Proof. reflexivity. Qed.

(** A printed string starts with its quote. *)
Lemma repr_str_head (s rest : ustring) :
  exists q, (q = quote1 \/ q = quote2) /\
            repr_str printable s ++ rest
            = q :: repr_body printable q s ++ q :: rest.
Proof.
  exists (repr_quote s). split; [apply repr_quote_cases|].
  unfold repr_str. cbv zeta.
  rewrite <- app_comm_cons, <- app_assoc. reflexivity.
Qed.

Lemma parse_value_repr_str (fuel n : nat) (s rest : ustring) :
  Forall code_point s ->
  parse_value (S fuel) (repeat (chr " ") n ++ repr_str printable s ++ rest)
  = Some (PyStr s, rest).
Proof.
  intros Hs. rewrite parse_value_eq, skip_ws_blanks.
  destruct (repr_str_head s rest) as [q [Hq ->]].
  assert (Hskip : forall t, skip_ws (q :: t) = q :: t)
    by (destruct Hq as [->| ->]; reflexivity).
  rewrite Hskip.
  assert (Hquote : (q =? quote1) || (q =? quote2) = true)
    by (destruct Hq as [->| ->]; reflexivity).
  rewrite Hquote, (string_body_repr_body q s rest Hq Hs). reflexivity.
Qed.

Lemma repr_items_cons (pad : nat) (s t : ustring) (l : list ustring) :
  repr_items printable pad (s :: t :: l)
  = repr_str printable s
    ++ chr "," :: repeat (chr " ") pad ++ repr_items printable pad (t :: l).
Proof. reflexivity. Qed.

(** The items of a printed list, up to the closing bracket, read back as
    the strings of the list; one unit of fuel per item and one more are
    enough. *)
Lemma parse_items_repr (pad : nat) (l : list ustring) :
  Forall (Forall code_point) l ->
  forall fuel n rest,
    (List.length l < fuel)%nat ->
    exists flag,
      parse_items fuel (chr "]")
                  (repeat (chr " ") n ++ repr_items printable pad l
                   ++ chr "]" :: rest)
      = Some (map PyStr l, flag, rest).
Proof.
  induction 1 as [|s l Hs Hl IH]; intros fuel n rest Hfuel;
    destruct fuel as [|fuel]; try (simpl in Hfuel; lia).
  - exists false. rewrite parse_items_eq, skip_ws_blanks. reflexivity.
  - simpl in Hfuel. destruct fuel as [|fuel]; [lia|].
    rewrite parse_items_eq, skip_ws_blanks.
    assert (Hhead : forall tail,
              exists q t, skip_ws (repr_str printable s ++ tail) = q :: t /\
                          repr_str printable s ++ tail = q :: t /\
                          (q =? chr "]") = false).
    { intros tail. destruct (repr_str_head s tail) as [q [Hq ->]].
      exists q, (repr_body printable q s ++ q :: tail).
      destruct Hq as [->| ->]; repeat split; reflexivity. }
    destruct l as [|t l].
    + exists false. simpl repr_items.
      destruct (Hhead (chr "]" :: rest)) as [q [tl [E1 [E2 Hq]]]].
      rewrite E1, Hq.
      rewrite (parse_value_repr_str fuel n s (chr "]" :: rest) Hs).
      reflexivity.
    + exists true. rewrite repr_items_cons, <- app_assoc.
      match goal with
      | |- context [skip_ws (repr_str printable s ++ ?tail)] =>
          destruct (Hhead tail) as [q [tl [E1 [E2 Hq]]]]
      end.
      rewrite E1, Hq.
      rewrite (parse_value_repr_str fuel n s _ Hs).
      destruct (IH (S fuel) pad rest) as [flag Hflag]; [simpl in *; lia|].
      rewrite <- app_comm_cons.
      assert (Hcomma : forall x, skip_ws (chr "," :: x) = chr "," :: x)
        by reflexivity.
      rewrite Hcomma. change (chr "," =? chr ",") with true. cbv match.
      rewrite <- app_assoc.
      match goal with
      | |- match ?X with _ => _ end = _ =>
          replace X with (Some (map PyStr (t :: l), flag, rest))
            by (symmetry; exact Hflag)
      end.
      reflexivity.
Qed.

Lemma repr_items_length (pad : nat) (l : list ustring) :
  (List.length l <= List.length (repr_items printable pad l))%nat.
Proof.
  induction l as [|s l IH]; [simpl; lia|].
  destruct l as [|t l].
  - simpl. lia.
  - rewrite repr_items_cons, length_app.
    rewrite !length_cons in *. rewrite length_app. lia.
Qed.

(** The textual form of a list of strings evaluates to that list. *)
Lemma literal_eval_repr (pad : nat) (l : list ustring) :
  Forall (Forall code_point) l ->
  literal_eval (repr_list printable pad l) = Some (PyList (map PyStr l)).
Proof.
  intros Hl. unfold literal_eval.
  remember (repr_list printable pad l) as cell eqn:Hcell.
  assert (Hlen : (List.length l + 2 <= List.length cell)%nat).
  { subst cell. unfold repr_list. simpl List.length. rewrite length_app.
    pose proof (repr_items_length pad l). simpl. lia. }
  replace (2 * List.length cell + 2)%nat
    with (S (S (2 * List.length cell)))%nat by lia.
  rewrite parse_value_eq. subst cell. unfold repr_list.
  assert (Hskip : forall t, skip_ws (chr "[" :: t) = chr "[" :: t)
    by reflexivity.
  rewrite Hskip. cbv beta match.
  assert (H1 : (chr "[" =? quote1) || (chr "[" =? quote2) = false)
    by reflexivity.
  assert (H2 : (chr "[" =? chr "[") = true) by reflexivity.
  rewrite H1, H2.
  destruct (parse_items_repr pad l Hl
              (S (2 * List.length
                        (chr "[" :: repr_items printable pad l ++ [chr "]"])))
              0 []) as [flag Hflag].
  { unfold repr_list in Hlen. lia. }
  match goal with
  | |- match match ?X with _ => _ end with _ => _ end = _ =>
      replace X with (Some (map PyStr l, flag, @nil N))
        by (symmetry; exact Hflag)
  end.
  reflexivity.
Qed.

End WithTable.

End UnicodeFacts.

(** ** The loader *)

Module LoaderFacts.

Import Py Unicode Loader LoadFacts UnicodeFacts.
Local Open Scope nat_scope.

(** [mapM] stops at the first element that raises. *)
Lemma mapM_first_raise {A B} (f : A -> result B) (l : list A) (a : A) :
  In a l -> raises (f a) ->
  exists e before c after,
    l = before ++ c :: after /\
    Forall (fun b => ~ raises (f b)) before /\
    f c = Raise e /\ mapM f l = Raise e.
Proof.
  induction l as [|x l IH]; intros Hin Hr; [destruct Hin|].
  destruct (f x) as [b|e] eqn:Ex.
  - destruct Hin as [->|Hin].
    { destruct Hr as [e He]. congruence. }
    destruct (IH Hin Hr) as [e [before [c [after [-> [Hb [Hc Hm]]]]]]].
    exists e, (x :: before), c, after. repeat split.
    + constructor; [|exact Hb]. intros [e' He']. congruence.
    + exact Hc.
    + simpl. rewrite Ex. simpl. now rewrite Hm.
  - exists e, [], x, l. repeat split.
    + constructor.
    + exact Ex.
    + simpl. now rewrite Ex.
Qed.

Lemma mapM_all_ok {A B} (f : A -> result B) (l : list A) :
  Forall (fun a => ~ raises (f a)) l -> exists bs, mapM f l = Ok bs.
Proof.
  induction 1 as [|a l Ha Hl [bs IH]]; [now exists []|].
  destruct (f a) as [b|e] eqn:Ea.
  - exists (b :: bs). simpl. now rewrite Ea, IH.
  - exfalso. apply Ha. now exists e.
Qed.

Lemma Forall_raises_dec {A B} (f : A -> result B) (l : list A) :
  Forall (fun a => ~ raises (f a)) l \/ exists a, In a l /\ raises (f a).
Proof.
  induction l as [|a l [IH|[b [Hb Hr]]]].
  - left. constructor.
  - destruct (f a) as [b|e] eqn:Ea.
    + left. constructor; [|exact IH]. intros [e He]. congruence.
    + right. exists a. split; [now left|]. now exists e.
  - right. exists b. split; [now right|exact Hr].
Qed.

Section WithLibrary.

Variable pyobject : Type.
Variable literal_eval : ustring -> result pyobject.
Variable join : pyobject -> result ustring.

(** A cell that [literal_eval] rejects ends the load with the exception of
    the first rejected cell. *)
Lemma load_data_first_raise (csv : list raw_row) (cell : ustring) :
  In cell (list_cells csv) -> raises (literal_eval cell) ->
  exists e before c after,
    list_cells csv = before ++ c :: after /\
    Forall (fun b => ~ raises (literal_eval b)) before /\
    literal_eval c = Raise e /\
    load_data literal_eval join csv = Raise e.
Proof.
  intros Hin Hr. unfold list_cells in *. unfold load_data.
  destruct (Forall_raises_dec literal_eval (map raw_wall_materials csv))
    as [Hwalls|[a [Ha Hra]]].
  - apply in_app_or in Hin. destruct Hin as [Hin|Hin].
    { exfalso. rewrite Forall_forall in Hwalls. exact (Hwalls cell Hin Hr). }
    destruct (mapM_all_ok literal_eval _ Hwalls) as [walls Hw].
    destruct (mapM_first_raise literal_eval _ cell Hin Hr)
      as [e [before [c [after [E [Hb [Hc Hm]]]]]]].
    exists e, (map raw_wall_materials csv ++ before), c, after.
    repeat split.
    + rewrite E. now rewrite app_assoc.
    + apply Forall_app. now split.
    + exact Hc.
    + rewrite Hw. simpl. now rewrite Hm.
  - destruct (mapM_first_raise literal_eval _ a Ha Hra)
      as [e [before [c [after [E [Hb [Hc Hm]]]]]]].
    exists e, before, c, (after ++ map raw_roof_materials csv).
    repeat split.
    + rewrite E. now rewrite <- app_assoc.
    + exact Hb.
    + exact Hc.
    + now rewrite Hm.
Qed.

End WithLibrary.

(** C4 (amended).  Whatever [ast.literal_eval] and [", ".join] do: when
    [literal_eval] raises on a cell of the wall or of the roof column, the
    load raises as well, with the exception [literal_eval] raised on the
    first such cell (wall column first), and returns no frame. *)
Theorem load_aborts_on_rejected_cell
        (pyobject : Type) (literal_eval : ustring -> result pyobject)
        (join : pyobject -> result ustring)
        (csv : list raw_row) (cell : ustring) :
  In cell (list_cells csv) -> raises (literal_eval cell) ->
  (exists e before c after,
     list_cells csv = before ++ c :: after /\
     Forall (fun b => ~ raises (literal_eval b)) before /\
     literal_eval c = Raise e /\
     load_data literal_eval join csv = Raise e) /\
  forall df, load_data literal_eval join csv <> Ok df.
Proof.
  intros Hin Hr.
  destruct (load_data_first_raise pyobject literal_eval join csv cell Hin Hr)
    as [e [before [c [after [E [Hb [Hc Hl]]]]]]].
  split.
  - now exists e, before, c, after.
  - intros df Hdf. congruence.
Qed.

Lemma load_aborts_on_rejected_cell_witness :
  (exists e before c after,
     list_cells [mkRaw (text "p1") (text "['brick', 'felt'")
                       (text "['tile']") 50 10 100]
     = before ++ c :: after /\
     Forall (fun b => ~ raises (fragment_eval b)) before /\
     fragment_eval c = Raise e /\
     load_data fragment_eval join_value
               [mkRaw (text "p1") (text "['brick', 'felt'")
                      (text "['tile']") 50 10 100]
     = Raise e) /\
  forall df,
    load_data fragment_eval join_value
              [mkRaw (text "p1") (text "['brick', 'felt'")
                     (text "['tile']") 50 10 100]
    <> Ok df.
Proof.
  apply (load_aborts_on_rejected_cell
           pyvalue fragment_eval join_value
           [mkRaw (text "p1") (text "['brick', 'felt'") (text "['tile']")
                  50 10 100]
           (text "['brick', 'felt'")).
  - left. reflexivity.
  - exists MalformedRecordError. reflexivity.
Defined.

(** A cell that holds a quoted string is no list literal, and the file
    loads all the same: the parse returns the string and the join runs over
    its characters.  This holds for every implementation of the two calls
    that reads the fragment. *)
Lemma load_accepts_string_cell :
  Unicode.literal_eval (text "'brick'") = Some (PyStr (text "brick")) /\
  (forall L : library,
     load L [mkRaw (text "p1") (text "'brick'") (text "('tile', 'felt')")
                   50 10 100]
     = Ok [mkLoaded (text "p1")
                    (of_value L (PyStr (text "brick")))
                    (of_value L (PyTuple [PyStr (text "tile");
                                          PyStr (text "felt")]))
                    (text "b, r, i, c, k") (text "tile, felt") 50 10 100]) /\
  (forall L : library, ~ load_rejects_non_lists L).
Proof.
  assert (Hload : forall L : library,
     load L [mkRaw (text "p1") (text "'brick'") (text "('tile', 'felt')")
                   50 10 100]
     = Ok [mkLoaded (text "p1")
                    (of_value L (PyStr (text "brick")))
                    (of_value L (PyTuple [PyStr (text "tile");
                                          PyStr (text "felt")]))
                    (text "b, r, i, c, k") (text "tile, felt") 50 10 100]).
  { intros L. unfold load, load_data. simpl map.
    unfold mapM at 1 2.
    rewrite (literal_eval_fragment L (text "'brick'") (PyStr (text "brick")))
      by reflexivity.
    rewrite (literal_eval_fragment L (text "('tile', 'felt')")
               (PyTuple [PyStr (text "tile"); PyStr (text "felt")]))
      by reflexivity.
    simpl. rewrite !join_fragment. reflexivity. }
  split; [reflexivity|]. split; [exact Hload|].
  intros L H.
  specialize (H [mkRaw (text "p1") (text "'brick'") (text "('tile', 'felt')")
                       50 10 100]
                (text "'brick'") (PyStr (text "brick"))).
  rewrite Hload in H.
  assert (Hbad : @Ok (list (loaded_row (object L)))
                   [mkLoaded (text "p1")
                    (of_value L (PyStr (text "brick")))
                    (of_value L (PyTuple [PyStr (text "tile");
                                          PyStr (text "felt")]))
                    (text "b, r, i, c, k") (text "tile, felt") 50 10 100]
                 = Raise MalformedRecordError).
  { apply H.
    - left. reflexivity.
    - reflexivity.
    - intros items. discriminate. }
  discriminate Hbad.
Qed.

(** *** Reading back a written list *)

Lemma str_items_strings (l : list ustring) :
  str_items (PyList (map PyStr l)) = Ok l.
Proof.
  simpl. induction l as [|s l IH]; simpl; [reflexivity|]. now rewrite IH.
Qed.

(** C7.  For every list of strings, evaluating its textual form (Python's
    display of the list, with any number of blanks after the commas) gives
    the list with the same strings in the same order, and the items a join
    runs over are exactly those strings.  This holds for every string of
    code points, whatever characters the table of printable characters
    lets the display write as they are, and for every implementation of
    [ast.literal_eval] that reads the fragment; a column of such cells
    evaluates cell by cell. *)
Theorem literal_eval_round_trip
        (printable : N -> bool) (pad : nat) (l : list ustring) :
  (forall c, printable c = true -> surrogate c = false) ->
  Forall (Forall code_point) l ->
  Unicode.literal_eval (repr_list printable pad l)
  = Some (PyList (map PyStr l)) /\
  str_items (PyList (map PyStr l)) = Ok l /\
  (forall L : library,
     lib_literal_eval L (repr_list printable pad l)
     = Ok (of_value L (PyList (map PyStr l)))) /\
  (forall (L : library) (column : list (list ustring)),
     Forall (Forall (Forall code_point)) column ->
     mapM (lib_literal_eval L) (map (repr_list printable pad) column)
     = Ok (map (fun items => of_value L (PyList (map PyStr items))) column)).
Proof.
  intros Hp Hl.
  split; [now apply literal_eval_repr|].
  split; [apply str_items_strings|].
  split.
  - intros L. apply literal_eval_fragment. now apply literal_eval_repr.
  - intros L column Hcol.
    induction Hcol as [|items column Hitems Hcol IH]; [reflexivity|].
    simpl.
    rewrite (literal_eval_fragment L _ _
               (literal_eval_repr printable Hp pad items Hitems)).
    simpl. now rewrite IH.
Qed.

Lemma literal_eval_round_trip_witness :
  Unicode.literal_eval
    (repr_list (fun c => (160 <? c) && (c <? 55296))%N 1
               [text "brick"; [233; 8232; 128512; 39]%N])
  = Some (PyList [PyStr (text "brick"); PyStr [233; 8232; 128512; 39]%N]).
Proof.
  apply (literal_eval_round_trip
           (fun c => (160 <? c) && (c <? 55296))%N 1
           [text "brick"; [233; 8232; 128512; 39]%N]).
  - intros c H. apply andb_true_iff in H. destruct H as [_ H].
    apply N.ltb_lt in H. unfold surrogate.
    apply andb_false_iff. left. apply N.leb_gt. exact H.
  - repeat constructor; discriminate.
Defined.

Example literal_eval_three :
  repr_list (fun _ => false) 1 [text "brick"; text "membraneX"; text "woolY"]
  = text "['brick', 'membraneX', 'woolY']" /\
  Unicode.literal_eval (text "['brick','membraneX','woolY']")
  = Some (PyList [PyStr (text "brick"); PyStr (text "membraneX");
                  PyStr (text "woolY")]).
Proof. split; reflexivity. Qed.

End LoaderFacts.

(** ** Layer columns by category *)

Module LayerMore.

Import Py Dashboard Spec LoadFacts LayerFacts.
Local Open Scope nat_scope.
Local Open Scope string_scope.

(** C5. For every frame and each layer (cladding 0, membrane 1,
    insulation 2), the wall column is derived from [wall_materials] and the
    roof column from [roof_materials]: the derivation succeeds and gives
    one value per record, the element at the layer's index when the
    material sequence of that category is longer than the index, and the
    string None otherwise.  A record whose wall_materials holds a single
    value gets that value as wall_cladding and None as wall_membrane and
    wall_insulation; likewise for the roof. *)
Theorem layer_columns_by_category :
  (forall (df : DataFrame) (t : typ) (l : layer),
     exists col,
       layer_column (t, l) df = Ok col /\
       List.length col = List.length df /\
       forall k r,
         nth_error df k = Some r ->
         exists v,
           nth_error col k = Some v /\
           match t with
           | wall =>
               (layer_index l < List.length (wall_materials r) ->
                nth_error (wall_materials r) (layer_index l) = Some v) /\
               (List.length (wall_materials r) <= layer_index l ->
                v = "None")
           | roof =>
               (layer_index l < List.length (roof_materials r) ->
                nth_error (roof_materials r) (layer_index l) = Some v) /\
               (List.length (roof_materials r) <= layer_index l ->
                v = "None")
           end) /\
  layer_index cladding = 0 /\ layer_index membrane = 1 /\
  layer_index insulation = 2 /\
  (forall (r : package_row) (v : string),
     wall_materials r = [v] ->
     layer_column (wall, cladding) [r] = Ok [v] /\
     layer_column (wall, membrane) [r] = Ok ["None"] /\
     layer_column (wall, insulation) [r] = Ok ["None"]) /\
  (forall (r : package_row) (v : string),
     roof_materials r = [v] ->
     layer_column (roof, cladding) [r] = Ok [v] /\
     layer_column (roof, membrane) [r] = Ok ["None"] /\
     layer_column (roof, insulation) [r] = Ok ["None"]).
Proof.
  split; [|repeat split; try reflexivity].
  - intros df t l. eexists. split; [apply layer_column_map|].
    split; [apply length_map|].
    intros k r Hk. eexists. split; [apply (map_nth_error _ _ _ Hk)|].
    destruct t; simpl; split.
    + intros Hlt. apply nth_error_nth'. exact Hlt.
    + intros Hle. now apply nth_overflow.
    + intros Hlt. apply nth_error_nth'. exact Hlt.
    + intros Hle. now apply nth_overflow.
  - rewrite layer_column_map. simpl. now rewrite H.
  - rewrite layer_column_map. simpl. now rewrite H.
  - rewrite layer_column_map. simpl. now rewrite H.
  - rewrite layer_column_map. simpl. now rewrite H.
  - rewrite layer_column_map. simpl. now rewrite H.
  - rewrite layer_column_map. simpl. now rewrite H.
Qed.

End LayerMore.

(** ** Sorting with an unstable sort *)

Module ContractFacts.

Import Py Pandas Dashboard Spec SortContract SortFacts RankFacts SelectorFacts
       SummaryFacts.
Local Open Scope Q_scope.

(** The stable sort is one of the frames [sort_values] may return. *)
Lemma sort_values_admissible {A} (key : A -> Q) (l : list A) :
  sort_values_returns key l (sort_values key l).
Proof. split; [apply sort_values_perm|apply sort_values_sorted]. Qed.

(** The first row of any frame the sort may return attains the least
    key. *)
Lemma sorted_head_least {A} (key : A -> Q) (l out : list A) (a : A) :
  sort_values_returns key l out -> iloc0 out = Ok a ->
  In a l /\ forall b, In b l -> key a <= key b.
Proof.
  intros [Hp Hs] Ha. destruct out as [|x out]; [discriminate|].
  injection Ha as ->. split.
  - apply (Permutation_in _ Hp). now left.
  - intros b Hb. apply (Permutation_in _ (Permutation_sym Hp)) in Hb.
    destruct Hb as [->|Hb]; [apply Qle_refl|].
    apply StronglySorted_inv in Hs. destruct Hs as [_ Hall].
    rewrite Forall_forall in Hall. now apply Hall.
Qed.

Lemma best_pkg_least (m : metric) (df : DataFrame) :
  df <> [] ->
  exists r, best_pkg m df = Ok r /\ In r df /\
            forall r', In r' df -> metric_of m r <= metric_of m r'.
Proof. intros Hne. apply (@iloc0_sort_values _ (metric_of m) df Hne). Qed.

(** C8. On an empty record set the summary computation signals: the first
    operation it runs, the best-package lookup [sort_values(m).iloc[0]],
    raises ([IndexError], the script's signal for an empty dataset), for
    every metric and whichever frame the sort returns, so the KPI block and
    the whole summary raise and no median, minimum or maximum is produced.
    On a non-empty record set the summary succeeds: the three medians and
    the cost range are numbers, the minimum and maximum are values of the
    cost column that bound it, and each best package is a record of the
    frame whose metric is least, again whichever frame the sort returns. *)
Theorem summary_needs_records :
  summary_run [] = Raise IndexError /\
  kpi_block [] = Raise IndexError /\
  (forall m, best_pkg m [] = Raise IndexError) /\
  (forall m r, ~ may_be_best m [] r) /\
  (forall df, (exists s, summary_run df = Ok s) <-> df <> []) /\
  (forall df : DataFrame,
     df <> [] ->
     exists bh bg bc mh mg mc lo hi,
       summary_run df
       = Ok (mkSummary (mkKpis bh bg bc (Finite mh) (Finite mg) (Finite mc))
                       (Finite lo) (Finite hi)) /\
       best_pkg Heating df = Ok bh /\ best_pkg Gwp df = Ok bg /\
       best_pkg Cost df = Ok bc /\
       In lo (map cost_sek df) /\ In hi (map cost_sek df) /\
       forall r, In r df -> lo <= cost_sek r /\ cost_sek r <= hi) /\
  (forall (df : DataFrame) (m : metric),
     df <> [] ->
     exists r, best_pkg m df = Ok r /\ may_be_best m df r) /\
  (forall (df : DataFrame) (m : metric) (r : package_row),
     may_be_best m df r ->
     In r df /\ forall r', In r' df -> metric_of m r <= metric_of m r').
Proof.
  assert (Hrun : forall df : DataFrame,
     df <> [] ->
     exists bh bg bc mh mg mc lo hi,
       summary_run df
       = Ok (mkSummary (mkKpis bh bg bc (Finite mh) (Finite mg) (Finite mc))
                       (Finite lo) (Finite hi)) /\
       best_pkg Heating df = Ok bh /\ best_pkg Gwp df = Ok bg /\
       best_pkg Cost df = Ok bc /\
       In lo (map cost_sek df) /\ In hi (map cost_sek df) /\
       forall r, In r df -> lo <= cost_sek r /\ cost_sek r <= hi).
  { intros df Hne.
    destruct (best_pkg_least Heating df Hne) as [bh [Hbh _]].
    destruct (best_pkg_least Gwp df Hne) as [bg [Hbg _]].
    destruct (best_pkg_least Cost df Hne) as [bc [Hbc _]].
    assert (Hcol : forall m, map (metric_of m) df <> []).
    { intros m E. apply map_eq_nil in E. contradiction. }
    destruct (series_median_finite _ (Hcol Heating)) as [mh Hmh].
    destruct (series_median_finite _ (Hcol Gwp)) as [mg Hmg].
    destruct (series_median_finite _ (Hcol Cost)) as [mc Hmc].
    destruct df as [|r0 df]; [contradiction|].
    exists bh, bg, bc, mh, mg, mc,
      (fold_left Qmin_of (map cost_sek df) (cost_sek r0)),
      (fold_left Qmax_of (map cost_sek df) (cost_sek r0)).
    split.
    { unfold summary_run, kpi_block. rewrite Hbh, Hbg, Hbc. simpl bind.
      unfold median. rewrite Hmh, Hmg, Hmc. reflexivity. }
    repeat split; try assumption.
    - apply (fold_Qmin_In (map cost_sek df) (cost_sek r0)).
    - apply (fold_Qmax_In (map cost_sek df) (cost_sek r0)).
    - destruct (fold_Qmin_le (map cost_sek df) (cost_sek r0)) as [H0 Hall].
      destruct H as [<-|H]; [exact H0|]. apply Hall. now apply in_map.
    - destruct (fold_Qmax_ge (map cost_sek df) (cost_sek r0)) as [H0 Hall].
      destruct H as [<-|H]; [exact H0|]. apply Hall. now apply in_map. }
  split; [reflexivity|]. split; [reflexivity|].
  split; [intros []; reflexivity|].
  split.
  { intros m r [out [[Hp _] Hr]].
    apply Permutation_sym, Permutation_nil in Hp. subst out.
    discriminate Hr. }
  split.
  { intros df. split.
    - intros [s Hs] ->. discriminate Hs.
    - intros Hne.
      destruct (Hrun df Hne) as [bh [bg [bc [mh [mg [mc [lo [hi [H _]]]]]]]]].
      eexists. exact H. }
  split; [exact Hrun|].
  split.
  - intros df m Hne.
    destruct (best_pkg_least m df Hne) as [r [Hr _]].
    exists r. split; [exact Hr|].
    exists (sort_values (metric_of m) df).
    split; [apply sort_values_admissible|exact Hr].
  - intros df m r [out [Hout Hr]].
    exact (sorted_head_least (metric_of m) df out r Hout Hr).
Qed.

(** *** Ranking by gwp alone *)

Lemma gwp_only_rows (df : DataFrame) :
  combine df (score_column df (1 / (1 + 0 + 0)) (0 / (1 + 0 + 0))
                           (0 / (1 + 0 + 0)))
  = map (fun r => (r, score_of df (1 / (1 + 0 + 0)) (0 / (1 + 0 + 0))
                               (0 / (1 + 0 + 0)) r)) df.
Proof. now rewrite score_column_rows, combine_map_r. Qed.

(** C3 (amended).  With weights 1, 0, 0 the normalised weights are 1, 0, 0
    (also in binary64) and the frames the ranking may return are exactly
    the ascending sorts of the records by gwp_kgco2e: each is a permutation
    of the records that ascends in gwp, and every such permutation may be
    returned.  Records of equal gwp have equal scores, and their order is
    not fixed; when no two different records share a gwp value there is one
    such frame, the frame sorted by gwp.  On the records A, B, C of the
    example the order is A, C, B. *)
Theorem gwp_only_ranking :
  (forall df : DataFrame,
     exists gw cw hw score top,
       multi_criteria_selector df 1 0 0 = TopCustom gw cw hw score top /\
       gw == 1 /\ cw == 0 /\ hw == 0 /\
       (forall rows : DataFrame,
          sort_values_returns gwp_kgco2e df rows <->
          exists out, sort_values_returns snd (combine df score) out /\
                      map fst out = rows) /\
       (forall out,
          sort_values_returns snd (combine df score) out ->
          forall p q, In p out -> In q out ->
                      (snd p <= snd q <-> gwp_kgco2e (fst p) <= gwp_kgco2e (fst q))) /\
       (forall out,
          sort_values_returns snd (combine df score) out ->
          (forall r r', In r df -> In r' df ->
                        gwp_kgco2e r == gwp_kgco2e r' -> r = r') ->
          map fst out = sort_values gwp_kgco2e df)) /\
  Binary64.normalize 1 0 0 = (1, 0, 0)%float /\
  (forall out,
     may_rank [example_A; example_B; example_C] 1 0 0 out ->
     map fst out = [example_A; example_C; example_B]).
Proof.
  assert (Hmain : forall df : DataFrame,
     exists gw cw hw score top,
       multi_criteria_selector df 1 0 0 = TopCustom gw cw hw score top /\
       gw == 1 /\ cw == 0 /\ hw == 0 /\
       (forall rows : DataFrame,
          sort_values_returns gwp_kgco2e df rows <->
          exists out, sort_values_returns snd (combine df score) out /\
                      map fst out = rows) /\
       (forall out,
          sort_values_returns snd (combine df score) out ->
          forall p q, In p out -> In q out ->
                      (snd p <= snd q <-> gwp_kgco2e (fst p) <= gwp_kgco2e (fst q))) /\
       (forall out,
          sort_values_returns snd (combine df score) out ->
          (forall r r', In r df -> In r' df ->
                        gwp_kgco2e r == gwp_kgco2e r' -> r = r') ->
          map fst out = sort_values gwp_kgco2e df)).
  { intros df.
    assert (Hne : ~ 1 + 0 + 0 == 0) by discriminate.
    pose proof (selector_ranked df 1 0 0 Hne) as Hsel. cbv zeta in Hsel.
    eexists _, _, _, _, _. split; [exact Hsel|].
    split; [reflexivity|]. split; [reflexivity|]. split; [reflexivity|].
    rewrite gwp_only_rows.
    set (sc := score_of df (1 / (1 + 0 + 0)) (0 / (1 + 0 + 0))
                        (0 / (1 + 0 + 0))).
    assert (Hle : forall r r', In r df -> In r' df ->
                    (sc r <= sc r' <-> gwp_kgco2e r <= gwp_kgco2e r')).
    { intros r r' Hr Hr'. now apply gwp_only_score_le. }
    assert (Hin : forall out,
              Permutation out (map (fun r => (r, sc r)) df) ->
              forall p, In p out -> In (fst p) df /\ snd p = sc (fst p)).
    { intros out Hp p Hp'. apply (Permutation_in _ Hp) in Hp'.
      apply in_map_iff in Hp'. destruct Hp' as [r [<- Hr]]. now split. }
    assert (Hfst : forall out,
              sort_values_returns snd (map (fun r => (r, sc r)) df) out ->
              sort_values_returns gwp_kgco2e df (map fst out)).
    { intros out [Hp Hs]. split.
      - apply (Permutation_map fst) in Hp.
        now rewrite map_map, map_id in Hp.
      - apply (@StronglySorted_map _ _ fst snd gwp_kgco2e out); [|exact Hs].
        intros a b Ha Hb Hab.
        destruct (Hin out Hp a Ha) as [Hra Ea], (Hin out Hp b Hb) as [Hrb Eb].
        rewrite Ea, Eb in Hab. now apply Hle. }
    split; [|split].
    - intros rows. split.
      + intros [Hp Hs]. exists (map (fun r => (r, sc r)) rows). split.
        * split; [now apply Permutation_map|].
          apply (@StronglySorted_map _ _ (fun r => (r, sc r)) gwp_kgco2e snd
                                     rows); [|exact Hs].
          intros a b Ha Hb Hab. simpl.
          apply Hle; [now apply (Permutation_in _ Hp)
                     |now apply (Permutation_in _ Hp)|exact Hab].
        * now rewrite map_map, map_id.
      + intros [out [Hout <-]]. now apply Hfst.
    - intros out [Hp Hs] p q Hp' Hq'.
      destruct (Hin out Hp p Hp') as [Hrp Ep], (Hin out Hp q Hq') as [Hrq Eq].
      rewrite Ep, Eq. now apply Hle.
    - intros out Hout Hinj.
      destruct (Hfst out Hout) as [Hp Hs].
      apply sorted_perm_unique with (key := gwp_kgco2e).
      + intros a b Ha Hb Hab. apply Hinj; [| |exact Hab].
        * now apply (Permutation_in _ Hp).
        * now apply (Permutation_in _ Hp).
      + eapply perm_trans; [exact Hp|].
        apply Permutation_sym, sort_values_perm.
      + exact Hs.
      + apply sort_values_sorted. }
  split; [exact Hmain|]. split; [reflexivity|].
  intros out [gw [cw [hw [score [top [Hsel Hout]]]]]].
  destruct (Hmain [example_A; example_B; example_C])
    as [gw' [cw' [hw' [score' [top' [Hsel' [_ [_ [_ [_ [_ Huniq]]]]]]]]]]].
  rewrite Hsel in Hsel'. injection Hsel' as _ _ _ <- _.
  rewrite (Huniq out Hout); [reflexivity|].
  intros r r' Hr Hr' E.
  simpl in Hr, Hr'.
  destruct Hr as [<-|[<-|[<-|[]]]], Hr' as [<-|[<-|[<-|[]]]];
    try reflexivity; vm_compute in E; discriminate E.
Qed.

(** With two records tied on the lowest gwp, the ranking may return them
    in either order: D, C, A, B is a frame the sort may return, and it is
    not the order C, D, A, B of a stable sort. *)
Lemma ranking_not_stable :
  sort_values gwp_kgco2e [tied_A; tied_B; tied_C; tied_D]
  = [tied_C; tied_D; tied_A; tied_B] /\
  (exists out,
     may_rank [tied_A; tied_B; tied_C; tied_D] 1 0 0 out /\
     map fst out = [tied_D; tied_C; tied_A; tied_B]) /\
  ~ gwp_ranking_is_stable.
Proof.
  assert (Hrank : exists out,
     may_rank [tied_A; tied_B; tied_C; tied_D] 1 0 0 out /\
     map fst out = [tied_D; tied_C; tied_A; tied_B]).
  { exists (map (fun r => (r, score_of [tied_A; tied_B; tied_C; tied_D]
                                       (1 / (1 + 0 + 0)) (0 / (1 + 0 + 0))
                                       (0 / (1 + 0 + 0)) r))
                [tied_D; tied_C; tied_A; tied_B]).
    split; [|reflexivity].
    eexists _, _, _, _, _. split; [reflexivity|].
    rewrite gwp_only_rows. split.
    - apply Permutation_map.
      apply (Permutation_cons_app [tied_A; tied_B; tied_C] []).
      apply (Permutation_cons_app [tied_A; tied_B] []).
      apply Permutation_refl.
    - repeat constructor; vm_compute; discriminate. }
  split; [reflexivity|]. split; [exact Hrank|].
  intros H. destruct Hrank as [out [Hout Hfst]].
  specialize (H _ _ Hout). rewrite Hfst in H. discriminate H.
Qed.

End ContractFacts.

(** ** The selector in binary64 *)

Module Selector64Facts.

Import Py Pandas Dashboard Spec Binary64 SortFacts RankFacts SelectorFacts
       ViewFacts.

(** *** The order of a sorted float column *)

Ltac cmp_cases :=
  repeat match goal with
         | H : context [Z.compare ?a ?b] |- _ => destruct (Z.compare_spec a b)
         | |- context [Z.compare ?a ?b] => destruct (Z.compare_spec a b)
         | H : context [Pos.compare_cont Eq ?a ?b] |- _ =>
             change (Pos.compare_cont Eq a b) with (Pos.compare a b) in *;
             destruct (Pos.compare_spec a b)
         | |- context [Pos.compare_cont Eq ?a ?b] =>
             change (Pos.compare_cont Eq a b) with (Pos.compare a b) in *;
             destruct (Pos.compare_spec a b)
         end.

Lemma sle_total (X Y : spec_float) :
  SFleb X Y || negb (SFeqb Y Y) = false ->
  SFleb Y X || negb (SFeqb X X) = true.
Proof.
  unfold SFleb, SFeqb, SFcompare.
  destruct X as [[]|[]| |[] mx ex], Y as [[]|[]| |[] my ey];
    simpl; try reflexivity; try discriminate;
    cmp_cases; simpl; try reflexivity; try discriminate; try lia.
Qed.

Lemma sle_trans (X Y Z : spec_float) :
  SFleb X Y || negb (SFeqb Y Y) = true ->
  SFleb Y Z || negb (SFeqb Z Z) = true ->
  SFleb X Z || negb (SFeqb Z Z) = true.
Proof.
  unfold SFleb, SFeqb, SFcompare.
  destruct X as [[]|[]| |[] mx ex], Y as [[]|[]| |[] my ey],
           Z as [[]|[]| |[] mz ez];
    simpl; try reflexivity; try discriminate;
    cmp_cases; simpl; try reflexivity; try discriminate; try lia.
Qed.

Lemma le64_sle (x y : float) :
  Selector64.le64 x y
  = SFleb (Prim2SF x) (Prim2SF y) || negb (SFeqb (Prim2SF y) (Prim2SF y)).
Proof.
  unfold Selector64.le64, PrimFloat.is_nan. now rewrite leb_spec, eqb_spec.
Qed.

Lemma le64_total (x y : float) :
  Selector64.le64 x y = false -> Selector64.le64 y x = true.
Proof. rewrite !le64_sle. apply sle_total. Qed.

Lemma le64_trans (x y z : float) :
  Selector64.le64 x y = true -> Selector64.le64 y z = true ->
  Selector64.le64 x z = true.
Proof. rewrite !le64_sle. apply sle_trans. Qed.

(** Every frame has an ascending arrangement: [sort_values] has a frame to
    return. *)
Lemma insert_sorted {A} (key : A -> float) (a : A) (l : list A) :
  StronglySorted (Selector64.ascending64 key) l ->
  exists out, Permutation out (a :: l) /\
              StronglySorted (Selector64.ascending64 key) out.
Proof.
  induction 1 as [|b l Hs IH Hb].
  - exists [a]. split; [reflexivity|]. repeat constructor.
  - destruct (Selector64.le64 (key a) (key b)) eqn:E.
    + exists (a :: b :: l). split; [reflexivity|].
      constructor; [now constructor|].
      constructor; [exact E|].
      eapply Forall_impl; [|exact Hb].
      intros c Hc. unfold Selector64.ascending64 in *.
      now apply le64_trans with (key b).
    + destruct IH as [out [Hp Ho]].
      exists (b :: out). split.
      * eapply perm_trans; [apply perm_skip; exact Hp|]. apply perm_swap.
      * constructor; [exact Ho|].
        eapply Permutation_Forall; [apply Permutation_sym; exact Hp|].
        constructor; [|exact Hb].
        unfold Selector64.ascending64. now apply le64_total.
Qed.

Lemma sort_values_total {A} (key : A -> float) (l : list A) :
  exists out, Selector64.sort_values_returns key l out.
Proof.
  induction l as [|a l [out [Hp Hs]]].
  - exists []. split; [reflexivity|constructor].
  - destruct (insert_sorted key a out Hs) as [out' [Hp' Hs']].
    exists out'. split; [|exact Hs'].
    eapply perm_trans; [exact Hp'|]. now apply perm_skip.
Qed.

(** *** The score column *)

Lemma series_scale64_map {A} (f : A -> float) (w : float) (l : list A) :
  Selector64.series_scale (map f l) w = map (fun a => (f a * w)%float) l.
Proof. unfold Selector64.series_scale. now rewrite map_map. Qed.

Lemma series_add64_map {A} (f g : A -> float) (l : list A) :
  Selector64.series_add (map f l) (map g l)
  = map (fun a => (f a + g a)%float) l.
Proof. induction l as [|a l IH]; simpl; [reflexivity|]. now rewrite IH. Qed.

Lemma rank64_map {A} (f : A -> Q) (l : list A) :
  Selector64.rank (map f l)
  = map (fun a => Selector64.rank_of (map f l) (f a)) l.
Proof. unfold Selector64.rank. now rewrite map_map. Qed.

Lemma score_column64_rows (df : DataFrame) (gw cw hw : float) :
  Selector64.score_column df gw cw hw
  = map (Selector64.score_of df gw cw hw) df.
Proof.
  unfold Selector64.score_column.
  rewrite !rank64_map, !series_scale64_map, !series_add64_map. reflexivity.
Qed.

Lemma selector_scored (df : DataFrame) (gw_raw cw_raw hw_raw : float) :
  PrimFloat.eqb (total_weight gw_raw cw_raw hw_raw) 0 = false ->
  Selector64.multi_criteria_selector df gw_raw cw_raw hw_raw
  = Selector64.Scored
      (gw_raw / total_weight gw_raw cw_raw hw_raw)
      (cw_raw / total_weight gw_raw cw_raw hw_raw)
      (hw_raw / total_weight gw_raw cw_raw hw_raw)
      (Selector64.score_column df
         (gw_raw / total_weight gw_raw cw_raw hw_raw)
         (cw_raw / total_weight gw_raw cw_raw hw_raw)
         (hw_raw / total_weight gw_raw cw_raw hw_raw)).
Proof.
  intros H. unfold Selector64.multi_criteria_selector. rewrite H.
  reflexivity.
Qed.

(** The table is the first six rows of an ascending arrangement of the
    scored frame: it ascends, and no row left out has a score below the
    score of a row shown. *)
Lemma top_custom_first_rows (df : DataFrame) (score : list float)
      (top : list (package_row * float)) :
  List.length score = List.length df ->
  Selector64.top_custom df score top ->
  List.length top = Nat.min 6 (List.length df) /\
  StronglySorted (fun p q => PrimFloat.leb (snd p) (snd q) = true \/
                             PrimFloat.is_nan (snd q) = true) top /\
  exists rest,
    Permutation (top ++ rest) (combine df score) /\
    forall p q, In p top -> In q rest ->
                PrimFloat.leb (snd p) (snd q) = true \/
                PrimFloat.is_nan (snd q) = true.
Proof.
  intros Hlen [out [[Hp Hs] ->]]. unfold head.
  assert (Hs' : StronglySorted
                  (fun p q => PrimFloat.leb (snd p) (snd q) = true \/
                              PrimFloat.is_nan (snd q) = true) out).
  { clear Hp. induction Hs as [|a l Hl IH Ha]; constructor; [exact IH|].
    eapply Forall_impl; [|exact Ha].
    intros b Hb. now apply orb_true_iff. }
  rewrite <- (firstn_skipn 6 out) in Hs'.
  split.
  { rewrite length_firstn, (Permutation_length Hp), length_combine, Hlen.
    now rewrite Nat.min_id. }
  split; [exact (StronglySorted_app_l _ _ _ Hs')|].
  exists (skipn 6 out). split.
  - now rewrite firstn_skipn.
  - intros p q Hp' Hq'.
    exact (StronglySorted_app_le _ _ _ Hs' p q Hp' Hq').
Qed.

(** *** Ranks *)

(** The rank of a value of the column: the binary64 quotient of the sum of
    the tied positions by their number; the positions are the block that
    follows the values below, and over the rationals the quotient is the
    fractional rank. *)
Lemma rank_of_block (xs : list Q) (x : Q) :
  In x xs ->
  tied_positions xs x = seq (S (count_lt xs x)) (count_eq xs x) /\
  (0 < count_eq xs x)%nat /\
  Selector64.rank_of xs x
  = (Selector64.of_nat (list_sum (seq (S (count_lt xs x)) (count_eq xs x)))
     / Selector64.of_nat (count_eq xs x))%float /\
  (Qnat (list_sum (seq (S (count_lt xs x)) (count_eq xs x)))
   / Qnat (count_eq xs x) == fractional_rank xs x)%Q /\
  (count_lt xs x = 0%nat -> count_eq xs x = 1%nat ->
   Selector64.rank_of xs x = 1%float).
Proof.
  intros Hx.
  assert (Hpos : (0 < count_eq xs x)%nat) by now apply count_eq_In.
  pose proof (tied_positions_block xs x) as Hblock.
  assert (Hrank : Selector64.rank_of xs x
    = (Selector64.of_nat (list_sum (seq (S (count_lt xs x)) (count_eq xs x)))
       / Selector64.of_nat (count_eq xs x))%float).
  { unfold Selector64.rank_of. cbv zeta. rewrite Hblock.
    now rewrite length_seq. }
  split; [exact Hblock|]. split; [exact Hpos|]. split; [exact Hrank|].
  split.
  - pose proof (rank_of_fractional xs x Hpos) as H.
    unfold Pandas.rank_of in H. cbv zeta in H.
    rewrite Hblock, length_seq in H. exact H.
  - intros Hl He. rewrite Hrank, Hl, He. reflexivity.
Qed.

(** C2 (amended).  When the total weight is not 0, the selector divides
    each weight by the total and gives every record the score
    [rank_gwp * gw + rank_cost * cw + rank_heating * hw], each operation in
    binary64, rounded to nearest.  The rank of a record on a metric is
    1-based and ascending: the values tied with it take the block of
    positions [count_lt + 1 .. count_lt + count_eq] of the ascending order,
    the rank is the binary64 quotient of their sum by their number (over
    the rationals, the fractional rank), and a single least value has rank
    1.  The table shown is the first 6 rows of the scored frame in an
    ascending order of the scores (NaN last): such a table exists, it has
    [min 6 n] rows in ascending order, and no row left out has a score
    below the score of a row shown. *)
Theorem composite_score_binary64
        (df : DataFrame) (gw_raw cw_raw hw_raw : float) :
  PrimFloat.eqb (total_weight gw_raw cw_raw hw_raw) 0 = false ->
  exists gw cw hw score,
    Selector64.multi_criteria_selector df gw_raw cw_raw hw_raw
    = Selector64.Scored gw cw hw score /\
    gw = (gw_raw / total_weight gw_raw cw_raw hw_raw)%float /\
    cw = (cw_raw / total_weight gw_raw cw_raw hw_raw)%float /\
    hw = (hw_raw / total_weight gw_raw cw_raw hw_raw)%float /\
    List.length score = List.length df /\
    (forall i r,
       nth_error df i = Some r ->
       nth_error score i
       = Some (Selector64.rank_of (map gwp_kgco2e df) (gwp_kgco2e r) * gw
               + Selector64.rank_of (map cost_sek df) (cost_sek r) * cw
               + Selector64.rank_of (map heating_demand_kwh_per_m2 df)
                                    (heating_demand_kwh_per_m2 r) * hw)%float) /\
    (forall m r,
       In r df ->
       let col := map (metric_of m) df in
       let x := metric_of m r in
       tied_positions col x = seq (S (count_lt col x)) (count_eq col x) /\
       (0 < count_eq col x)%nat /\
       Selector64.rank_of col x
       = (Selector64.of_nat (list_sum (seq (S (count_lt col x))
                                           (count_eq col x)))
          / Selector64.of_nat (count_eq col x))%float /\
       (Qnat (list_sum (seq (S (count_lt col x)) (count_eq col x)))
        / Qnat (count_eq col x) == fractional_rank col x)%Q /\
       (count_lt col x = 0%nat -> count_eq col x = 1%nat ->
        Selector64.rank_of col x = 1%float)) /\
    (exists top, Selector64.top_custom df score top) /\
    (forall top,
       Selector64.top_custom df score top ->
       List.length top = Nat.min 6 (List.length df) /\
       StronglySorted (fun p q => PrimFloat.leb (snd p) (snd q) = true \/
                                  PrimFloat.is_nan (snd q) = true) top /\
       exists rest,
         Permutation (top ++ rest) (combine df score) /\
         forall p q, In p top -> In q rest ->
                     PrimFloat.leb (snd p) (snd q) = true \/
                     PrimFloat.is_nan (snd q) = true).
Proof.
  intros Hne.
  eexists _, _, _, _. split; [apply (selector_scored df _ _ _ Hne)|].
  split; [reflexivity|]. split; [reflexivity|]. split; [reflexivity|].
  assert (Hlen : List.length
                   (Selector64.score_column df
                      (gw_raw / total_weight gw_raw cw_raw hw_raw)
                      (cw_raw / total_weight gw_raw cw_raw hw_raw)
                      (hw_raw / total_weight gw_raw cw_raw hw_raw))
                 = List.length df).
  { rewrite score_column64_rows. apply length_map. }
  split; [exact Hlen|].
  split.
  { intros i r Hi. rewrite score_column64_rows.
    now apply (map_nth_error (Selector64.score_of df _ _ _)). }
  split.
  { intros m r Hr col x. apply rank_of_block.
    unfold col, x. now apply in_map. }
  split.
  - destruct (sort_values_total (@snd package_row float)
                (combine df (Selector64.score_column df
                      (gw_raw / total_weight gw_raw cw_raw hw_raw)
                      (cw_raw / total_weight gw_raw cw_raw hw_raw)
                      (hw_raw / total_weight gw_raw cw_raw hw_raw))))
      as [out Hout].
    exists (head 6 out), out. now split.
  - intros top Htop. now apply top_custom_first_rows.
Qed.

Lemma composite_score_binary64_witness :
  exists gw cw hw score,
    Selector64.multi_criteria_selector
      [example_A; example_B; example_C]
      (slider_value 40) (slider_value 30) (slider_value 30)
    = Selector64.Scored gw cw hw score /\
    List.length score = 3%nat /\
    exists top, Selector64.top_custom [example_A; example_B; example_C]
                                      score top.
Proof.
  destruct (composite_score_binary64
              [example_A; example_B; example_C]
              (slider_value 40) (slider_value 30) (slider_value 30))
    as [gw [cw [hw [score [Hsel [_ [_ [_ [Hlen [_ [_ [Htop _]]]]]]]]]]]].
  - reflexivity.
  - exists gw, cw, hw, score. split; [exact Hsel|]. split; [exact Hlen|].
    exact Htop.
Defined.

(** With the sliders at 0.4, 0.3 and 0.3 the three weights add up to
    exactly 1, and the scores of the records A, B, C of the example are not
    the numbers 11/5, 9/5 and 2 of the exact composite score: the first two
    are off by one rounding. *)
Lemma scores_are_rounded :
  Selector64.multi_criteria_selector
    [example_A; example_B; example_C]
    (slider_value 40) (slider_value 30) (slider_value 30)
  = Selector64.Scored (slider_value 40) (slider_value 30) (slider_value 30)
                      [0x1.1999999999999p+1; 0x1.ccccccccccccep+0; 2]%float /\
  ~ Selector64.scores_are_exact.
Proof.
  assert (Hsel : Selector64.multi_criteria_selector
    [example_A; example_B; example_C]
    (slider_value 40) (slider_value 30) (slider_value 30)
  = Selector64.Scored (slider_value 40) (slider_value 30) (slider_value 30)
                      [0x1.1999999999999p+1; 0x1.ccccccccccccep+0; 2]%float).
  { vm_compute. reflexivity. }
  split; [exact Hsel|].
  intros H.
  destruct (H _ _ _ _ _ _ _ _
              (7205759403792794 # 18014398509481984)%Q
              (5404319552844595 # 18014398509481984)%Q
              (5404319552844595 # 18014398509481984)%Q
              Hsel eq_refl eq_refl eq_refl
              0%nat example_A (0x1.1999999999999p+1)%float eq_refl eq_refl)
    as [q [Hq Heq]].
  vm_compute in Hq. injection Hq as <-.
  vm_compute in Heq. discriminate Heq.
Qed.

(** *** The slider grid *)

Lemma slider_position_In (z : Z) :
  (0 <= z <= 100)%Z -> In z slider_positions.
Proof.
  intros Hz. unfold slider_positions. apply in_map_iff.
  exists (Z.to_nat z). split; [lia|]. apply in_seq. lia.
Qed.

Lemma slider_grid_checked :
  forallb (fun i =>
    forallb (fun j =>
      forallb (fun k =>
        if PrimFloat.eqb
             (total_weight (slider_value i) (slider_value j) (slider_value k))
             0
        then Z.eqb i 0 && Z.eqb j 0 && Z.eqb k 0
        else convex64 (normalize (slider_value i) (slider_value j)
                                 (slider_value k)))
      slider_positions) slider_positions) slider_positions = true.
Proof. vm_compute. reflexivity. Qed.

Lemma slider_grid_at (i j k : Z) :
  (0 <= i <= 100)%Z -> (0 <= j <= 100)%Z -> (0 <= k <= 100)%Z ->
  (if PrimFloat.eqb
        (total_weight (slider_value i) (slider_value j) (slider_value k)) 0
   then Z.eqb i 0 && Z.eqb j 0 && Z.eqb k 0
   else convex64 (normalize (slider_value i) (slider_value j)
                            (slider_value k))) = true.
Proof.
  intros Hi Hj Hk.
  pose proof slider_grid_checked as Hgrid.
  rewrite forallb_forall in Hgrid.
  specialize (Hgrid i (slider_position_In i Hi)).
  rewrite forallb_forall in Hgrid.
  specialize (Hgrid j (slider_position_In j Hj)).
  rewrite forallb_forall in Hgrid.
  exact (Hgrid k (slider_position_In k Hk)).
Qed.

(** C6.  At every position of the three sliders (steps of 0.01 from 0 to
    1) other than 0, 0, 0, the selector divides each weight by the total,
    in binary64; the three normalised weights are each at least 0 and
    their sum is 1 within one unit in the last place, in whichever order
    they are added. *)
Theorem normalized_weights_convex (df : DataFrame) (i j k : Z) :
  (0 <= i <= 100)%Z -> (0 <= j <= 100)%Z -> (0 <= k <= 100)%Z ->
  ~ (i = 0 /\ j = 0 /\ k = 0)%Z ->
  exists gw cw hw score,
    Selector64.multi_criteria_selector
      df (slider_value i) (slider_value j) (slider_value k)
    = Selector64.Scored gw cw hw score /\
    gw = (slider_value i
          / (slider_value i + slider_value j + slider_value k))%float /\
    cw = (slider_value j
          / (slider_value i + slider_value j + slider_value k))%float /\
    hw = (slider_value k
          / (slider_value i + slider_value j + slider_value k))%float /\
    PrimFloat.leb 0 gw = true /\ PrimFloat.leb 0 cw = true /\
    PrimFloat.leb 0 hw = true /\
    near_one (gw + cw + hw) = true /\ near_one (gw + (cw + hw)) = true /\
    near_one (gw + hw + cw) = true.
Proof.
  intros Hi Hj Hk Hnz.
  pose proof (slider_grid_at i j k Hi Hj Hk) as Hgrid.
  destruct (PrimFloat.eqb
              (total_weight (slider_value i) (slider_value j) (slider_value k))
              0) eqn:Ez.
  { exfalso. apply Hnz.
    apply andb_true_iff in Hgrid. destruct Hgrid as [Hgrid Hk0].
    apply andb_true_iff in Hgrid. destruct Hgrid as [Hi0 Hj0].
    apply Z.eqb_eq in Hi0, Hj0, Hk0. now repeat split. }
  eexists _, _, _, _.
  split; [apply (selector_scored df _ _ _ Ez)|].
  unfold total_weight.
  split; [reflexivity|]. split; [reflexivity|]. split; [reflexivity|].
  unfold convex64, normalize, total_weight in Hgrid.
  repeat (apply andb_true_iff in Hgrid; destruct Hgrid as [Hgrid ?]).
  now repeat split.
Qed.

Lemma normalized_weights_convex_witness :
  exists gw cw hw score,
    Selector64.multi_criteria_selector
      [example_A; example_B; example_C]
      (slider_value 40) (slider_value 30) (slider_value 30)
    = Selector64.Scored gw cw hw score /\
    PrimFloat.leb 0 gw = true /\ PrimFloat.leb 0 cw = true /\
    PrimFloat.leb 0 hw = true /\
    near_one (gw + cw + hw) = true.
Proof.
  destruct (normalized_weights_convex
              [example_A; example_B; example_C] 40 30 30)
    as [gw [cw [hw [score [Hsel [_ [_ [_ [Hg [Hc [Hh [Hs _]]]]]]]]]]]].
  - lia.
  - lia.
  - lia.
  - intros [H _]. discriminate H.
  - exists gw, cw, hw, score. now repeat split.
Defined.

End Selector64Facts.
